(** * Firestore security rules of the contactSubmissions collection

    A shallow embedding of the helper functions of [firestore.rules]
    ([isValidOnboardingUpdate], [isOnboardingFieldsOnly],
    [isValidOnboardingData], [isAdminUpdate]) and of the [allow update]
    statement of [match /contactSubmissions/{submissionId}], followed by
    the properties of the update rule.

    Documents are finite maps from field names to values.  A rules
    expression evaluates to a value or fails (a missing property, a method
    applied to a value of the wrong type); failure is [None].  An [allow]
    statement grants the request only when its condition evaluates to
    [true]. *)

From stdpp Require Import gmap strings list fin_maps.
From Stdlib Require Import ZArith Ascii String.

Local Open Scope string_scope.
Local Open Scope list_scope.

(** ** Values stored in documents *)

Module Rules.

(** Field values.  Numbers are integers here (no field the rules inspect is
    compared as a floating point number); a string is a sequence of
    characters and [size()] counts them. *)
#[local] Set Warnings "-register-all".
Inductive value :=
  | VNull
  | VBool (b : bool)
  | VInt (n : Z)
  | VStr (s : string)
  | VTimestamp (t : Z)
  | VList (l : list value)
  | VMap (m : gmap string value).
#[local] Set Warnings "register-all".

Global Instance value_eq_dec : EqDecision value.
Proof.
  refine (fix go (v1 v2 : value) {struct v1} : Decision (v1 = v2) :=
    let _ : EqDecision value := go in
    match v1, v2 with
    | VNull, VNull => left _
    | VBool a, VBool b => cast_if (decide (a = b))
    | VInt a, VInt b => cast_if (decide (a = b))
    | VStr a, VStr b => cast_if (decide (a = b))
    | VTimestamp a, VTimestamp b => cast_if (decide (a = b))
    | VList a, VList b => cast_if (decide (a = b))
    | VMap a, VMap b => cast_if (decide (a = b))
    | _, _ => right _
    end); abstract congruence.
Defined.

(** [resource] and [request.resource]: only the [data] member is read by
    the rules of this collection. *)
Record Resource := { data : gmap string value }.
Record Request := { resource : Resource }.

(** ** Regular expressions of [string.matches]

    [matches] tests the whole string against the pattern.  The patterns of
    the rules file use literal characters, [.] and a postfix [*] only;
    [.] stands for any character but the line feed. *)

Inductive regex :=
  | RVoid
  | REps
  | RChar (c : ascii)
  | RAny
  | RAlt (r1 r2 : regex)
  | RSeq (r1 r2 : regex)
  | RStar (r : regex).

Definition newline : ascii := "010"%char.

Definition re_atom (c : ascii) : regex :=
  if decide (c = "."%char) then RAny else RChar c.

Fixpoint re_parse (p : list ascii) : regex :=
  match p with
  | [] => REps
  | c :: p' =>
      match p' with
      | "*"%char :: p'' => RSeq (RStar (re_atom c)) (re_parse p'')
      | _ => RSeq (re_atom c) (re_parse p')
      end
  end.

Fixpoint nullable (r : regex) : bool :=
  match r with
  | RVoid | RChar _ | RAny => false
  | REps | RStar _ => true
  | RAlt r1 r2 => nullable r1 || nullable r2
  | RSeq r1 r2 => nullable r1 && nullable r2
  end.

Fixpoint deriv (a : ascii) (r : regex) : regex :=
  match r with
  | RVoid | REps => RVoid
  | RChar c => if decide (a = c) then REps else RVoid
  | RAny => if decide (a = newline) then RVoid else REps
  | RAlt r1 r2 => RAlt (deriv a r1) (deriv a r2)
  | RSeq r1 r2 =>
      if nullable r1
      then RAlt (RSeq (deriv a r1) r2) (deriv a r2)
      else RSeq (deriv a r1) r2
  | RStar r1 => RSeq (deriv a r1) (RStar r1)
  end.

Fixpoint re_accepts (r : regex) (s : list ascii) : bool :=
  match s with
  | [] => nullable r
  | a :: s' => re_accepts (deriv a r) s'
  end.

Definition str_matches (s pattern : string) : bool :=
  re_accepts (re_parse (list_ascii_of_string pattern)) (list_ascii_of_string s).

(** ** Operators of the rules language *)

(** [a && b] and [a || b].  A failing operand is absorbed when the other
    operand decides the result. *)
Definition rand (a b : option bool) : option bool :=
  match a, b with
  | Some false, _ | _, Some false => Some false
  | Some true, Some true => Some true
  | _, _ => None
  end.

Definition ror (a b : option bool) : option bool :=
  match a, b with
  | Some true, _ | _, Some true => Some true
  | Some false, Some false => Some false
  | _, _ => None
  end.

Definition rnot (a : option bool) : option bool := negb <$> a.

(** [m.k]: member access fails on a missing key and on a non-map. *)
Definition member (v : option value) (k : string) : option value :=
  match v with
  | Some (VMap m) => m !! k
  | _ => None
  end.

(** [m.keys()] *)
Definition keys (v : option value) : option (list string) :=
  match v with
  | Some (VMap m) => Some (elements (dom m))
  | _ => None
  end.

(** [l.hasAll(ks)], [l.hasAny(ks)], [l.hasOnly(ks)] on lists of strings. *)
Definition hasAll (l : option (list string)) (ks : list string) : option bool :=
  (λ l, forallb (λ k, bool_decide (k ∈ l)) ks) <$> l.
Definition hasAny (l : option (list string)) (ks : list string) : option bool :=
  (λ l, existsb (λ k, bool_decide (k ∈ l)) ks) <$> l.
Definition hasOnly (l : option (list string)) (ks : list string) : option bool :=
  (λ l, forallb (λ k, bool_decide (k ∈ ks)) l) <$> l.

(** [a == b]: values of different types are different. *)
Definition req (a b : option value) : option bool :=
  match a, b with
  | Some x, Some y => Some (bool_decide (x = y))
  | _, _ => None
  end.

(** [v is string], [v is bool] *)
Definition is_string (v : option value) : option bool :=
  (λ v, match v with VStr _ => true | _ => false end) <$> v.
Definition is_bool (v : option value) : option bool :=
  (λ v, match v with VBool _ => true | _ => false end) <$> v.

(** [v.size()] of a string, a list or a map. *)
Definition size (v : option value) : option Z :=
  match v with
  | Some (VStr s) => Some (Z.of_nat (String.length s))
  | Some (VList l) => Some (Z.of_nat (List.length l))
  | Some (VMap m) => Some (Z.of_nat (base.size m))
  | _ => None
  end.

Definition rge (a : option Z) (n : Z) : option bool := (λ a, bool_decide (n ≤ a)%Z) <$> a.
Definition rgt (a : option Z) (n : Z) : option bool := (λ a, bool_decide (n < a)%Z) <$> a.

(** [v.matches(pattern)] *)
Definition matches (v : option value) (pattern : string) : option bool :=
  match v with
  | Some (VStr s) => Some (str_matches s pattern)
  | _ => None
  end.

Definition str (s : string) : option value := Some (VStr s).

(** A document, as the map value the rules see. *)
Abbreviation doc m := (Some (VMap m)).

Declare Scope rules_scope.
Delimit Scope rules_scope with rules.
Infix "&&&" := rand (at level 40, left associativity) : rules_scope.
Infix "|||" := ror (at level 50, left associativity) : rules_scope.
Notation "! a" := (rnot a) (at level 35, right associativity) : rules_scope.
Notation "v .[ k ]" := (member v k) (at level 1, left associativity, format "v .[ k ]") : rules_scope.
Infix "==" := req (at level 38, no associativity) : rules_scope.
Local Open Scope rules_scope.

(** ** The helper functions of the contactSubmissions rules *)

Definition allowedFields : list string :=
  [ "name"; "email"; "status"; "temporaryUserId"; "temporaryPassword";
    "firstName"; "lastName"; "phone"; "bio"; "linkedin";
    "notificationPreferences"; "onboardingProgress"; "onboardingCompleted";
    "onboardingCompletedAt"; "passwordUpdatedAt"; "profileUpdatedAt";
    "submittedAt"; "campusStatus"; "companyName"; "idea" ].

Definition isOnboardingFieldsOnly (incomingDoc : option value) : option bool :=
  hasOnly (keys incomingDoc) allowedFields.

Definition isValidOnboardingData (incomingDoc : option value) : option bool :=
  let passwordValid :=
    ! hasAny (keys incomingDoc) ["temporaryPassword"] |||
    (is_string incomingDoc.["temporaryPassword"] &&&
     rge (size incomingDoc.["temporaryPassword"]) 6) in
  let profileValid :=
    ! hasAny (keys incomingDoc) ["firstName"; "lastName"] |||
    (is_string incomingDoc.["firstName"] &&&
     rgt (size incomingDoc.["firstName"]) 0 &&&
     is_string incomingDoc.["lastName"] &&&
     rgt (size incomingDoc.["lastName"]) 0) in
  let linkedinValid :=
    ! hasAny (keys incomingDoc) ["linkedin"] |||
    incomingDoc.["linkedin"] == str "" |||
    matches incomingDoc.["linkedin"] "https://.*linkedin.com/.*" |||
    matches incomingDoc.["linkedin"] "https://.*linkedin.com/in/.*" in
  let notificationValid :=
    ! hasAny (keys incomingDoc) ["notificationPreferences"] |||
    (hasAll (keys incomingDoc.["notificationPreferences"]) ["emailNotifications"] &&&
     is_bool incomingDoc.["notificationPreferences"].["emailNotifications"]) in
  passwordValid &&& profileValid &&& linkedinValid &&& notificationValid.

Definition isValidOnboardingUpdate (existingData : Resource) (incomingRequest : Request)
    : option bool :=
  let existingDoc := doc (data existingData) in
  let incomingDoc := doc (data (resource incomingRequest)) in
  existingDoc.["status"] == str "accepted" &&&
  hasAll (keys incomingDoc) ["name"; "email"; "status"] &&&
  incomingDoc.["email"] == existingDoc.["email"] &&&
  incomingDoc.["status"] == existingDoc.["status"] &&&
  isOnboardingFieldsOnly incomingDoc &&&
  isValidOnboardingData incomingDoc.

Definition isAdminUpdate (incomingRequest : Request) : option bool :=
  let isStatusUpdate :=
    hasAny (keys (doc (data (resource incomingRequest))))
      ["status"; "processedByAdminAt"] in
  let isCredentialAssignment :=
    hasAny (keys (doc (data (resource incomingRequest))))
      ["temporaryUserId"; "temporaryPassword"] &&&
    (doc (data (resource incomingRequest))).["status"] == str "accepted" in
  isStatusUpdate ||| isCredentialAssignment.

(** [allow update: if c]: the write is granted when [c] evaluates to
    [true]; [false] and a failed evaluation both deny it. *)
Definition allow (c : option bool) : bool :=
  match c with
  | Some true => true
  | _ => false
  end.

(** [match /contactSubmissions/{submissionId}], [allow update]. *)
Definition contactSubmissions_update (resource : Resource) (request : Request) : bool :=
  allow (isValidOnboardingUpdate resource request ||| isAdminUpdate request).

End Rules.

Import Rules.
Local Open Scope rules_scope.

(** ** The language of a regular expression

    The words a pattern denotes, against which the matcher [re_accepts] is
    checked. *)

Inductive re_lang : regex → list ascii → Prop :=
  | lang_eps : re_lang REps []
  | lang_char c : re_lang (RChar c) [c]
  | lang_any c : c ≠ newline → re_lang RAny [c]
  | lang_alt_l r1 r2 s : re_lang r1 s → re_lang (RAlt r1 r2) s
  | lang_alt_r r1 r2 s : re_lang r2 s → re_lang (RAlt r1 r2) s
  | lang_seq r1 r2 s1 s2 :
      re_lang r1 s1 → re_lang r2 s2 → re_lang (RSeq r1 r2) (s1 ++ s2)
  | lang_star_nil r : re_lang (RStar r) []
  | lang_star_more r s1 s2 :
      re_lang r s1 → re_lang (RStar r) s2 → re_lang (RStar r) (s1 ++ s2).

(** ** The two LinkedIn patterns, in words *)

Definition linkedin_pattern_1 : string := "https://.*linkedin.com/.*".
Definition linkedin_pattern_2 : string := "https://.*linkedin.com/in/.*".

(** The characters of a string. *)
Definition chars (s : string) : list ascii := list_ascii_of_string s.

(** The words of the first LinkedIn pattern: [https://], any characters,
    [linkedin], one character, [com/], any characters; none of the
    characters matched by a dot is a line feed. *)
Definition linkedin_url (w : list ascii) : Prop :=
  ∃ a c b,
    w = chars "https://" ++ a ++ chars "linkedin" ++ c :: chars "com/" ++ b ∧
    (newline ∉ a) ∧ c ≠ newline ∧ (newline ∉ b).

(** The words of the second pattern, with [com/in/] for [com/]. *)
Definition linkedin_in_url (w : list ascii) : Prop :=
  ∃ a c b,
    w = chars "https://" ++ a ++ chars "linkedin" ++ c :: chars "com/in/" ++ b ∧
    (newline ∉ a) ∧ c ≠ newline ∧ (newline ∉ b).

(** ** The onboarding contract, as the specification words it

    The seven conditions of the onboarding update predicate, over the
    existing document and the incoming one. *)

Definition onboarding_contract (existing incoming : gmap string value) : Prop :=
  existing !! "status" = Some (VStr "accepted") ∧
  (∀ k, k ∈ dom incoming → k ∈ allowedFields) ∧
  (incoming !! "email" = existing !! "email" ∧
   incoming !! "status" = existing !! "status") ∧
  (∀ v, incoming !! "temporaryPassword" = Some v →
     ∃ s, v = VStr s ∧ (6 ≤ String.length s)%nat) ∧
  (is_Some (incoming !! "firstName") ∨ is_Some (incoming !! "lastName") →
     ∃ f l, incoming !! "firstName" = Some (VStr f) ∧
            incoming !! "lastName" = Some (VStr l) ∧
            (0 < String.length f)%nat ∧ (0 < String.length l)%nat) ∧
  (∀ v, incoming !! "linkedin" = Some v →
     v = VStr "" ∨
     ∃ s, v = VStr s ∧
          (linkedin_url (chars s) ∨ linkedin_in_url (chars s))) ∧
  (∀ v, incoming !! "notificationPreferences" = Some v →
     ∃ m b, v = VMap m ∧ m !! "emailNotifications" = Some (VBool b)).

(** The incoming field set contains [name], [email] and [status]. *)
Definition has_core_fields (incoming : gmap string value) : Prop :=
  "name" ∈ dom incoming ∧ "email" ∈ dom incoming ∧ "status" ∈ dom incoming.

(** The request that writes [incoming], and the stored resource [existing]. *)
Definition stored (existing : gmap string value) : Resource := {| data := existing |}.
Definition write (incoming : gmap string value) : Request :=
  {| resource := {| data := incoming |} |}.

(** Documents used as examples below. *)
Definition accepted_doc : gmap string value :=
  <["status" := VStr "accepted"]>
    (<["email" := VStr "jdoe@example.org"]> (<["name" := VStr "J. Doe"]> ∅)).
Definition pending_doc : gmap string value :=
  <["status" := VStr "pending"]>
    (<["email" := VStr "jdoe@example.org"]> (<["name" := VStr "J. Doe"]> ∅)).

(** An update of an accepted submission that repeats [email] and [status]
    and leaves [name] out. *)
Definition update_without_name : gmap string value :=
  <["status" := VStr "accepted"]> (<["email" := VStr "jdoe@example.org"]> ∅).

(** A pending applicant's update that only carries onboarding fields and
    sets [status]. *)
Definition update_self_accept : gmap string value :=
  <["status" := VStr "accepted"]>
    (<["email" := VStr "jdoe@example.org"]> (<["name" := VStr "J. Doe"]> ∅)).

(** An update of an accepted submission that repeats its core fields and
    fills in the biography. *)
Definition update_profile : gmap string value :=
  <["bio" := VStr "Founder of a robotics startup."]> update_self_accept.

(** An update of an accepted submission that fills in the phone number and
    leaves [name] out. *)
Definition update_phone_without_name : gmap string value :=
  <["phone" := VStr "+1 555 0100"]> update_without_name.

(** An update that names [status] with a value outside the enumeration, a
    field outside the allow-list and a one-character password. *)
Definition update_arbitrary : gmap string value :=
  <["status" := VStr "banana"]>
    (<["isAdmin" := VBool true]> (<["temporaryPassword" := VStr "x"]> ∅)).

(** An update of an accepted submission that changes [status]. *)
Definition update_status_changed : gmap string value :=
  <["status" := VStr "rejected"]>
    (<["email" := VStr "jdoe@example.org"]> (<["name" := VStr "J. Doe"]> ∅)).

(** An admin write that accepts a pending submission and issues its
    credentials. *)
Definition update_issue_credentials : gmap string value :=
  <["status" := VStr "accepted"]>
    (<["temporaryUserId" := VStr "u-1001"]>
      (<["temporaryPassword" := VStr "s3cr3t!"]> ∅)).

(** * The rule files as a whole: match blocks and allow statements

    A rules file is a tree of [match] blocks.  A block names a path pattern,
    the [allow] statements for the documents the pattern matches, and
    nested blocks for the paths below.  A request is granted when some
    [allow] statement of some matching block names its method and has a
    condition that evaluates to [true]. *)

Module Ruleset.

(** Request methods.  [allow read] stands for [get] and [list],
    [allow write] for [create], [update] and [delete]. *)
Inductive method := Get | List | Create | Update | Delete.

Global Instance method_eq_dec : EqDecision method.
Proof. solve_decision. Defined.

Definition reads : list method := [Get; List].
Definition writes : list method := [Create; Update; Delete].

(** What a condition can read: [request.method], [request.auth] ([None]
    for a signed-out client), [resource] and [request.resource]. *)
Record Access := {
  acc_method : method;
  acc_auth : option (gmap string value);
  acc_resource : Resource;
  acc_request : Request }.

(** [request.auth], [null] and [a != b]. *)
Definition request_auth (a : Access) : option value :=
  Some (match acc_auth a with Some token => VMap token | None => VNull end).
Definition null : option value := Some VNull.
Definition rneq (a b : option value) : option bool := ! (a == b).

(** Path patterns: a literal segment, a single-segment wildcard [{x}] and
    a recursive wildcard [{x=**}], which under [rules_version = '2'] stands
    for zero or more segments. *)
Inductive segment :=
  | Lit (s : string)
  | Var (x : string)
  | Rec (x : string).

Fixpoint suffixes (p : list string) : list (list string) :=
  p :: match p with
       | [] => []
       | _ :: p' => suffixes p'
       end.

(** The paths left after a pattern has matched a prefix of [p]. *)
Fixpoint consume (pat : list segment) (p : list string) : list (list string) :=
  match pat with
  | [] => [p]
  | Lit s :: pat' =>
      match p with
      | x :: p' => if String.eqb x s then consume pat' p' else []
      | [] => []
      end
  | Var _ :: pat' =>
      match p with
      | _ :: p' => consume pat' p'
      | [] => []
      end
  | Rec _ :: pat' => List.concat (map (consume pat') (suffixes p))
  end.

(** [allow m1, m2: if c] *)
Record stmt := Allow {
  methods : list method;
  cond : Access → option bool }.

#[local] Set Warnings "-register-all".
Inductive block :=
  | Match (pat : list segment) (allows : list stmt) (inner : list block).
#[local] Set Warnings "register-all".

Definition stmt_allows (a : Access) (s : stmt) : bool :=
  bool_decide (acc_method a ∈ methods s) && allow (cond s a).

(** A block grants a request for path [p] when its pattern matches all of
    [p] and one of its statements allows the request, or when the pattern
    matches a prefix of [p] and a nested block grants the rest. *)
Fixpoint block_allows (a : Access) (b : block) (p : list string) : bool :=
  match b with
  | Match pat allows inner =>
      existsb (λ rest,
        (bool_decide (rest = []) && existsb (stmt_allows a) allows)
        || existsb (λ b', block_allows a b' rest) inner)
      (consume pat p)
  end.

Definition blocks_allow (a : Access) (bs : list block) (p : list string) : bool :=
  existsb (λ b, block_allows a b p) bs.

Definition always (a : Access) : option bool := Some true.
Definition never (a : Access) : option bool := Some false.
Definition signed_in (a : Access) : option bool := rneq (request_auth a) null.

(** ** [firestore.rules] *)

Definition admin_config : block :=
  Match [Lit "admin_config"; Lit "main_credentials"]
    [ Allow reads always; Allow writes signed_in ] [].

Definition evaluationCriteria : block :=
  Match [Lit "evaluationCriteria"; Var "criterionId"]
    [ Allow reads always; Allow writes always ] [].

Definition contactSubmissions : block :=
  Match [Lit "contactSubmissions"; Var "submissionId"]
    [ Allow reads signed_in;
      Allow [Create] always;
      Allow [Update] (λ a,
        isValidOnboardingUpdate (acc_resource a) (acc_request a) |||
        isAdminUpdate (acc_request a)) ] [].

Definition offCampusApplications : block :=
  Match [Lit "offCampusApplications"; Var "submissionId"]
    [ Allow reads signed_in; Allow [Create] always; Allow [Update] always ] [].

Definition events : block :=
  Match [Lit "events"; Var "eventId"]
    [ Allow reads always; Allow [Create] always;
      Allow [Update] always; Allow [Delete] always ] [].

Definition mentors : block :=
  Match [Lit "mentors"; Var "mentorId"]
    [ Allow reads always; Allow writes always ]
    [ Match [Lit "profile"; Var "profileDoc"]
        [ Allow reads always; Allow writes always ] [];
      Match [Rec "subcollection"]
        [ Allow reads always; Allow writes always ] [] ].

Definition startups : block :=
  Match [Lit "startups"; Var "startupId"]
    [ Allow reads always; Allow [Create] always;
      Allow [Update] always; Allow [Delete] always ] [].

Definition mentorRequests : block :=
  Match [Lit "mentorRequests"; Var "requestId"]
    [ Allow [Create] always; Allow reads always;
      Allow [Update] always; Allow [Delete] always ] [].

Definition notifications : block :=
  Match [Lit "notifications"; Var "notificationId"]
    [ Allow [Create] always; Allow reads always;
      Allow [Update] always; Allow [Delete] always ] [].

Definition users : block :=
  Match [Lit "users"; Var "userId"]
    [ Allow reads always; Allow writes always ] [].

Definition submissions : block :=
  Match [Lit "submissions"; Var "submissionId"]
    [ Allow reads always; Allow writes always ] [].

Definition emailTokens : block :=
  Match [Lit "emailTokens"; Var "tokenId"]
    [ Allow reads always; Allow writes always; Allow [Delete] always ] [].

Definition evaluation_rounds : block :=
  Match [Lit "evaluation_rounds"; Var "docId"]
    [ Allow (reads ++ writes) always ] [].

Definition notifications_evaluation : block :=
  Match [Lit "notifications"; Var "docId"]
    [ Allow (reads ++ writes) always ] [].

Definition analysisUploads : block :=
  Match [Lit "analysisUploads"; Var "docId"]
    [ Allow (reads ++ writes) always ] [].

Definition analysis : block :=
  Match [Lit "analysis"; Var "docId"]
    [ Allow (reads ++ writes) always ] [].

(** [match /{document=**}], the last block of the file. *)
Definition catch_all : block :=
  Match [Rec "document"] [ Allow (reads ++ writes) always ] [].

(** The blocks of the file before the catch-all, in source order. *)
Definition declared_blocks : list block :=
  [ admin_config; evaluationCriteria; contactSubmissions; offCampusApplications;
    events; mentors; startups; mentorRequests; notifications; users;
    submissions; emailTokens; evaluation_rounds; notifications_evaluation;
    analysisUploads; analysis ].

(** [service cloud.firestore], [match /databases/{database}/documents]. *)
Definition firestore_rules : block :=
  Match [Lit "databases"; Var "database"; Lit "documents"] []
    (declared_blocks ++ [catch_all]).

(** ** [storage.rules] *)

Definition storage_folder (name : string) : block :=
  Match [Lit name; Rec "allPaths"] [ Allow (reads ++ writes) always ] [].

Definition storage_default : block :=
  Match [Rec "allPaths"] [ Allow (reads ++ writes) never ] [].

(** [service firebase.storage], [match /b/{bucket}/o]. *)
Definition storage_rules : block :=
  Match [Lit "b"; Var "bucket"; Lit "o"] []
    [ storage_folder "mentor-profile-pics";
      storage_folder "user-profile-pics";
      storage_folder "startup-images";
      storage_folder "event-images";
      storage_default ].

End Ruleset.

Import Ruleset.

(** Whether the client is signed in. *)
Definition signed_in_b (a : Access) : bool :=
  match acc_auth a with Some _ => true | None => false end.

(** The collection a block is rooted at. *)
Definition block_root (b : block) : option string :=
  match b with
  | Match (Lit s :: _) _ _ => Some s
  | _ => None
  end.

(** The collections named by the blocks before the catch-all. *)
Definition declared_collections : list string := omap block_root declared_blocks.

(** The collections whose block allows every method unconditionally. *)
Definition open_collections : list string :=
  [ "evaluationCriteria"; "events"; "startups"; "mentorRequests";
    "notifications"; "users"; "submissions"; "emailTokens";
    "evaluation_rounds"; "analysisUploads"; "analysis" ].

(** The folders [storage.rules] opens. *)
Definition storage_folders : list string :=
  [ "mentor-profile-pics"; "user-profile-pics"; "startup-images"; "event-images" ].

(** The allow-listed fields whose value no check of the onboarding
    predicate reads. *)
Definition unchecked_fields : list string :=
  [ "name"; "temporaryUserId"; "phone"; "bio"; "onboardingProgress";
    "onboardingCompleted"; "onboardingCompletedAt"; "passwordUpdatedAt";
    "profileUpdatedAt"; "submittedAt"; "campusStatus"; "companyName"; "idea" ].

(** * Avatar initials of the mentors page

    [getInitials] of [src/app/admin/mentors/page.tsx].  A string is a
    sequence of code units of an arbitrary type [U]; [toUpperCase] is the
    host function on strings. *)

Module Initials.
Section Initials.
Context {U : Type} `{EqDecision U}.
Variable space : U.
Variable toUpperCase : list U → list U.

(** [s.split(sep)] for a one-unit separator: the parts between the
    separators, at least one part, empty parts included. *)
Fixpoint split (sep : U) (s : list U) : list (list U) :=
  match s with
  | [] => [[]]
  | c :: s' =>
      if decide (c = sep) then [] :: split sep s'
      else match split sep s' with
           | part :: parts => (c :: part) :: parts
           | [] => [[c]]
           end
  end.

(** [part[0]]: [undefined] ([None]) for the empty string. *)
Definition first_unit (part : list U) : option U := head part.

(** [parts.join('')]: [undefined] elements join as the empty string. *)
Definition join (parts : list (option U)) : list U :=
  List.concat (map (λ o, match o with Some c => [c] | None => [] end) parts).

Definition initials (name : list U) : list U :=
  join (map first_unit (split space name)).

Definition getInitials (name : list U) : list U := toUpperCase (initials name).

(** The units of [s] that start a word: not a space, and first or after a
    space. *)
Fixpoint word_starts (at_start : bool) (s : list U) : list U :=
  match s with
  | [] => []
  | c :: s' =>
      if decide (c = space) then word_starts true s'
      else (if at_start then [c] else []) ++ word_starts false s'
  end.
End Initials.
End Initials.

(** * Evaluation lemmas *)

(** Every resource and request is of the form [stored _] and [write _]. *)
Lemma stored_data (r : Resource) : stored (data r) = r.
Proof. by destruct r. Qed.

Lemma write_data (q : Request) : write (data (resource q)) = q.
Proof. by destruct q as [[?]]. Qed.

(** The embedding at a few inputs. *)
Example eval_profile_update :
  isValidOnboardingUpdate (stored accepted_doc) (write update_profile) = Some true.
Proof. vm_compute. reflexivity. Qed.

Example eval_first_name_alone :
  isValidOnboardingData (doc (<["firstName" := VStr "Jane"]> update_profile)) = None.
Proof. vm_compute. reflexivity. Qed.

Example eval_linkedin_number :
  isValidOnboardingData (doc (<["linkedin" := VInt 7]> update_profile)) = None.
Proof. vm_compute. reflexivity. Qed.

Example eval_preferences_flag :
  isValidOnboardingData
    (doc (<["notificationPreferences" :=
             VMap {["emailNotifications" := VBool false]}]> update_profile))
  = Some true.
Proof. vm_compute. reflexivity. Qed.

Example eval_no_existing_status :
  isValidOnboardingUpdate (stored ∅) (write update_profile) = None.
Proof. vm_compute. reflexivity. Qed.

Example matches_bare_host :
  str_matches "https://linkedin.com/" linkedin_pattern_1 = true.
Proof. vm_compute. reflexivity. Qed.

Example matches_needs_slash :
  str_matches "https://www.linkedin.com" linkedin_pattern_1 = false.
Proof. vm_compute. reflexivity. Qed.

Example matches_dot_is_wildcard :
  str_matches "https://linkedin-com/x" linkedin_pattern_1 = true.
Proof. vm_compute. reflexivity. Qed.

Example matches_http :
  str_matches "http://www.linkedin.com/in/jdoe" linkedin_pattern_2 = false.
Proof. vm_compute. reflexivity. Qed.

Section Connectives.
Implicit Types a b : option bool.

Lemma rand_true a b : a &&& b = Some true ↔ a = Some true ∧ b = Some true.
Proof. destruct a as [[]|], b as [[]|]; simpl; intuition congruence. Qed.

Lemma ror_true a b : a ||| b = Some true ↔ a = Some true ∨ b = Some true.
Proof. destruct a as [[]|], b as [[]|]; simpl; intuition congruence. Qed.

Lemma rnot_true a : ! a = Some true ↔ a = Some false.
Proof. destruct a as [[]|]; simpl; intuition congruence. Qed.

Lemma rand_false_l a b : a = Some false → a &&& b = Some false.
Proof. intros ->. by destruct b as [[]|]. Qed.

Lemma rand_false_r a b : b = Some false → a &&& b = Some false.
Proof. intros ->. by destruct a as [[]|]. Qed.

Lemma allow_true a : allow a = true ↔ a = Some true.
Proof. destruct a as [[]|]; simpl; intuition congruence. Qed.

Lemma allow_false a : allow a = false ↔ a ≠ Some true.
Proof. destruct a as [[]|]; simpl; intuition congruence. Qed.
End Connectives.

Section Keys.
Implicit Types m : gmap string value.

Lemma in_keys m k : k ∈ elements (dom m) ↔ k ∈ dom m.
Proof. apply elem_of_elements. Qed.

Lemma has_key_Some m k v :
  m !! k = Some v → bool_decide (k ∈ elements (dom m)) = true.
Proof.
  intros H. apply bool_decide_eq_true. rewrite in_keys. apply elem_of_dom. eauto.
Qed.

Lemma has_key_None m k :
  m !! k = None → bool_decide (k ∈ elements (dom m)) = false.
Proof.
  intros H. apply bool_decide_eq_false. rewrite in_keys.
  by apply not_elem_of_dom.
Qed.

Lemma hasAll_keys m ks :
  hasAll (keys (Some (VMap m))) ks = Some true ↔ ∀ k, k ∈ ks → k ∈ dom m.
Proof.
  simpl. split.
  - intros [= H] k Hk. rewrite forallb_forall in H.
    apply list_elem_of_In, H, bool_decide_eq_true, in_keys in Hk. done.
  - intros H. f_equal. apply forallb_forall. intros k Hk.
    apply bool_decide_eq_true, in_keys, H, list_elem_of_In, Hk.
Qed.

Lemma hasAll_keys_false m ks k :
  k ∈ ks → k ∉ dom m → hasAll (keys (Some (VMap m))) ks = Some false.
Proof.
  intros Hk Hn. simpl. f_equal. apply not_true_is_false. intros H.
  rewrite forallb_forall in H.
  apply list_elem_of_In, H, bool_decide_eq_true, in_keys in Hk. done.
Qed.

Lemma hasAny_keys m ks :
  hasAny (keys (Some (VMap m))) ks = Some true ↔ ∃ k, k ∈ ks ∧ k ∈ dom m.
Proof.
  simpl. split.
  - intros [= H]. apply existsb_exists in H as (k & Hk & H).
    exists k. split; [by apply list_elem_of_In|].
    by apply bool_decide_eq_true, in_keys in H.
  - intros (k & Hk & H). f_equal. apply existsb_exists. exists k.
    split; [by apply list_elem_of_In|]. by apply bool_decide_eq_true, in_keys.
Qed.

Lemma hasAny_keys_total m ks : ∃ b, hasAny (keys (Some (VMap m))) ks = Some b.
Proof. simpl. eauto. Qed.

Lemma hasOnly_keys m ks :
  hasOnly (keys (Some (VMap m))) ks = Some true ↔ ∀ k, k ∈ dom m → k ∈ ks.
Proof.
  simpl. split.
  - intros [= H] k Hk. rewrite forallb_forall in H.
    apply in_keys, list_elem_of_In, H, bool_decide_eq_true in Hk. done.
  - intros H. f_equal. apply forallb_forall. intros k Hk.
    apply bool_decide_eq_true, H, in_keys, list_elem_of_In, Hk.
Qed.

Lemma hasOnly_keys_false m ks k :
  k ∈ dom m → k ∉ ks → hasOnly (keys (Some (VMap m))) ks = Some false.
Proof.
  intros Hk Hn. simpl. f_equal. apply not_true_is_false. intros H.
  rewrite forallb_forall in H.
  apply in_keys, list_elem_of_In, H, bool_decide_eq_true in Hk. done.
Qed.

Lemma req_true (a b : option value) :
  a == b = Some true ↔ ∃ v, a = Some v ∧ b = Some v.
Proof.
  destruct a as [x|], b as [y|]; simpl;
    try (split; [discriminate | intros (v & ? & ?); discriminate]).
  split.
  - intros [= H%bool_decide_eq_true]. exists x. by subst.
  - intros (v & [= ->] & [= ->]). by rewrite bool_decide_eq_true_2.
Qed.
End Keys.

(** ** The matcher accepts the language of the pattern *)

Section Regex.
Implicit Types (r : regex) (s : list ascii) (a : ascii).

Lemma lang_void_inv s : ¬ re_lang RVoid s.
Proof. inversion 1. Qed.

Lemma lang_eps_inv s : re_lang REps s → s = [].
Proof. by inversion 1. Qed.

Lemma lang_char_inv c s : re_lang (RChar c) s → s = [c].
Proof. by inversion 1. Qed.

Lemma lang_any_inv s : re_lang RAny s → ∃ c, s = [c] ∧ c ≠ newline.
Proof. inversion 1; subst; eauto. Qed.

Lemma lang_alt_inv r1 r2 s : re_lang (RAlt r1 r2) s → re_lang r1 s ∨ re_lang r2 s.
Proof. inversion 1; subst; tauto. Qed.

Lemma lang_seq_inv r1 r2 s :
  re_lang (RSeq r1 r2) s → ∃ s1 s2, s = s1 ++ s2 ∧ re_lang r1 s1 ∧ re_lang r2 s2.
Proof. inversion 1; subst; eauto. Qed.

Lemma nullable_lang r : nullable r = true ↔ re_lang r [].
Proof.
  induction r as [| | c | | r1 IH1 r2 IH2 | r1 IH1 r2 IH2 | r IH]; simpl.
  - split; [discriminate | by intros ?%lang_void_inv].
  - split; [constructor | done].
  - split; [discriminate | by intros ?%lang_char_inv].
  - split; [discriminate | by intros (c & ? & _)%lang_any_inv].
  - rewrite orb_true_iff, IH1, IH2. split.
    + intros [H|H]; [by apply lang_alt_l | by apply lang_alt_r].
    + apply lang_alt_inv.
  - rewrite andb_true_iff, IH1, IH2. split.
    + intros [H1 H2]. by apply (lang_seq r1 r2 [] []).
    + intros (s1 & s2 & Heq & H1 & H2)%lang_seq_inv.
      symmetry in Heq. apply app_eq_nil in Heq as [-> ->]. done.
  - split; [constructor | done].
Qed.

(** A non-empty word of [r*] starts with a non-empty word of [r]. *)
Lemma star_cons r a s :
  re_lang (RStar r) (a :: s) →
  ∃ s1 s2, s = s1 ++ s2 ∧ re_lang r (a :: s1) ∧ re_lang (RStar r) s2.
Proof.
  intros H. remember (RStar r) as r' eqn:Hr. remember (a :: s) as w eqn:Hw.
  induction H as [| | | | | | |r0 s1 s2 H1 _ H2 IH]; try discriminate.
  injection Hr as ->. destruct s1 as [|b s1].
  - simpl in Hw. by apply IH.
  - injection Hw as -> <-. eauto.
Qed.

Lemma deriv_seq_sound a r1 r2 s :
  (∀ s, re_lang (deriv a r1) s → re_lang r1 (a :: s)) →
  re_lang (RSeq (deriv a r1) r2) s → re_lang (RSeq r1 r2) (a :: s).
Proof.
  intros IH (s1 & s2 & -> & H1 & H2)%lang_seq_inv.
  apply IH in H1. by apply (lang_seq r1 r2 (a :: s1) s2).
Qed.

Lemma deriv_seq_complete a r1 r2 s :
  (∀ s, re_lang r1 (a :: s) → re_lang (deriv a r1) s) →
  re_lang (RSeq r1 r2) (a :: s) →
  re_lang (RSeq (deriv a r1) r2) s ∨ (re_lang r1 [] ∧ re_lang r2 (a :: s)).
Proof.
  intros IH (s1 & s2 & Heq & H1 & H2)%lang_seq_inv.
  destruct s1 as [|b s1]; simpl in Heq.
  - right. by subst.
  - injection Heq as <- ->. left. apply lang_seq; [by apply IH | done].
Qed.

Lemma deriv_lang a r s : re_lang (deriv a r) s ↔ re_lang r (a :: s).
Proof.
  revert s. induction r as [| | c | | r1 IH1 r2 IH2 | r1 IH1 r2 IH2 | r IH];
    intros s; simpl.
  - split; by intros ?%lang_void_inv.
  - split; [by intros ?%lang_void_inv | by intros ?%lang_eps_inv].
  - destruct (decide (a = c)) as [->|Hne]; split.
    + intros ->%lang_eps_inv. constructor.
    + intros [= ->]%lang_char_inv. constructor.
    + by intros ?%lang_void_inv.
    + intros [= -> ->]%lang_char_inv. done.
  - destruct (decide (a = newline)) as [->|Hne]; split.
    + by intros ?%lang_void_inv.
    + intros (c & [= -> ->] & Hc)%lang_any_inv. done.
    + intros ->%lang_eps_inv. by constructor.
    + intros (c & [= -> ->] & Hc)%lang_any_inv. constructor.
  - split.
    + intros [H|H]%lang_alt_inv; [apply lang_alt_l, IH1 | apply lang_alt_r, IH2]; done.
    + intros [H|H]%lang_alt_inv; [apply lang_alt_l, IH1 | apply lang_alt_r, IH2]; done.
  - destruct (nullable r1) eqn:Hn; split.
    + intros [H|H]%lang_alt_inv.
      * apply deriv_seq_sound; [apply IH1 | done].
      * apply (lang_seq r1 r2 [] (a :: s)); [by apply nullable_lang | by apply IH2].
    + intros [H|[_ H]]%deriv_seq_complete; [by apply lang_alt_l | | apply IH1].
      by apply lang_alt_r, IH2.
    + apply deriv_seq_sound, IH1.
    + intros [H|[H _]]%deriv_seq_complete; [done | | apply IH1].
      apply nullable_lang in H. congruence.
  - split.
    + intros (s1 & s2 & -> & H1 & H2)%lang_seq_inv.
      apply IH in H1. by apply (lang_star_more r (a :: s1) s2).
    + intros (s1 & s2 & -> & H1 & H2)%star_cons.
      apply lang_seq; [by apply IH | done].
Qed.

Lemma re_accepts_lang r s : re_accepts r s = true ↔ re_lang r s.
Proof.
  revert r. induction s as [|a s IH]; intros r; simpl.
  - apply nullable_lang.
  - by rewrite IH, deriv_lang.
Qed.
End Regex.

(** ** The two LinkedIn patterns *)

Section Patterns.
Implicit Types (r : regex) (s w : list ascii) (c : ascii).

Lemma lang_star_any s : re_lang (RStar RAny) s ↔ newline ∉ s.
Proof.
  split.
  - induction s as [|a s IH]; [intros _; apply not_elem_of_nil|].
    intros (s1 & s2 & -> & H1 & H2)%star_cons.
    apply lang_any_inv in H1 as (c & [= -> ->] & Hc). simpl in *.
    apply not_elem_of_cons. split; [done | by apply IH].
  - induction s as [|a s IH]; [constructor|].
    intros [Ha Hs]%not_elem_of_cons.
    apply (lang_star_more RAny [a] s); [by constructor | by apply IH].
Qed.

Lemma lang_seq_char c r s :
  re_lang (RSeq (RChar c) r) s ↔ ∃ s', s = c :: s' ∧ re_lang r s'.
Proof.
  split.
  - intros (s1 & s2 & -> & ->%lang_char_inv & H2)%lang_seq_inv. eauto.
  - intros (s' & -> & H). apply (lang_seq (RChar c) r [c] s'); [constructor | done].
Qed.

Lemma lang_seq_any r s :
  re_lang (RSeq RAny r) s ↔ ∃ c s', s = c :: s' ∧ c ≠ newline ∧ re_lang r s'.
Proof.
  split.
  - intros (s1 & s2 & -> & (c & -> & Hc)%lang_any_inv & H2)%lang_seq_inv. eauto.
  - intros (c & s' & -> & Hc & H). apply (lang_seq RAny r [c] s'); [by constructor | done].
Qed.

Lemma lang_seq_star_any r s :
  re_lang (RSeq (RStar RAny) r) s ↔ ∃ a b, s = a ++ b ∧ (newline ∉ a) ∧ re_lang r b.
Proof.
  split.
  - intros (s1 & s2 & -> & H1%lang_star_any & H2)%lang_seq_inv. eauto.
  - intros (a & b & -> & Ha%lang_star_any & H). by apply lang_seq.
Qed.

Lemma lang_eps_iff s : re_lang REps s ↔ s = [].
Proof. split; [apply lang_eps_inv | intros ->; constructor]. Qed.

Local Ltac chars_in H :=
  repeat (apply lang_seq_char in H as (? & -> & H)).
Local Ltac chars_out :=
  repeat (apply lang_seq_char; eexists; split; [reflexivity|]).

Lemma linkedin_pattern_1_lang w :
  re_accepts (re_parse (chars linkedin_pattern_1)) w = true ↔ linkedin_url w.
Proof.
  rewrite re_accepts_lang. unfold linkedin_url. cbn. split.
  - intros H. chars_in H.
    apply lang_seq_star_any in H as (a & w1 & -> & Ha & H). chars_in H.
    apply lang_seq_any in H as (c & w2 & -> & Hc & H). chars_in H.
    apply lang_seq_star_any in H as (b & w3 & -> & Hb & ->%lang_eps_iff).
    exists a, c, b. rewrite app_nil_r. done.
  - intros (a & c & b & -> & Ha & Hc & Hb). cbn. chars_out.
    apply lang_seq_star_any. exists a, (chars "linkedin" ++ c :: chars "com/" ++ b).
    split; [done|]. split; [done|]. cbn. chars_out.
    apply lang_seq_any. exists c, (chars "com/" ++ b).
    split; [done|]. split; [done|]. cbn. chars_out.
    apply lang_seq_star_any. exists b, []. rewrite app_nil_r.
    split; [done|]. split; [done|]. constructor.
Qed.

Lemma linkedin_pattern_2_lang w :
  re_accepts (re_parse (chars linkedin_pattern_2)) w = true ↔ linkedin_in_url w.
Proof.
  rewrite re_accepts_lang. unfold linkedin_in_url. cbn. split.
  - intros H. chars_in H.
    apply lang_seq_star_any in H as (a & w1 & -> & Ha & H). chars_in H.
    apply lang_seq_any in H as (c & w2 & -> & Hc & H). chars_in H.
    apply lang_seq_star_any in H as (b & w3 & -> & Hb & ->%lang_eps_iff).
    exists a, c, b. rewrite app_nil_r. done.
  - intros (a & c & b & -> & Ha & Hc & Hb). cbn. chars_out.
    apply lang_seq_star_any. exists a, (chars "linkedin" ++ c :: chars "com/in/" ++ b).
    split; [done|]. split; [done|]. cbn. chars_out.
    apply lang_seq_any. exists c, (chars "com/in/" ++ b).
    split; [done|]. split; [done|]. cbn. chars_out.
    apply lang_seq_star_any. exists b, []. rewrite app_nil_r.
    split; [done|]. split; [done|]. constructor.
Qed.

Lemma str_matches_pattern_1 (s : string) :
  str_matches s linkedin_pattern_1 = true ↔ linkedin_url (chars s).
Proof. apply linkedin_pattern_1_lang. Qed.

Lemma str_matches_pattern_2 (s : string) :
  str_matches s linkedin_pattern_2 = true ↔ linkedin_in_url (chars s).
Proof. apply linkedin_pattern_2_lang. Qed.

(** Every word of the second pattern is a word of the first. *)
Lemma linkedin_in_url_url w : linkedin_in_url w → linkedin_url w.
Proof.
  intros (a & c & b & -> & Ha & Hc & Hb).
  exists a, c, (chars "in/" ++ b). repeat split; try done.
  cbn. rewrite !not_elem_of_cons. repeat split; try done; discriminate.
Qed.
End Patterns.

(** ** The four checks of [isValidOnboardingData] *)

Section OnboardingData.
Variable m : gmap string value.

(** Case analysis on the presence of field [k], rewriting the key test. *)
Local Ltac by_field k v E :=
  destruct (m !! k) as [v|] eqn:E;
  [ rewrite ?(has_key_Some m k v E) | rewrite ?(has_key_None m k E) ].

Local Ltac open_ops :=
  unfold hasAny, hasAll, keys, member, is_string, is_bool, rge, rgt, size,
    matches, str, req;
  cbn [fmap option_fmap option_map existsb].

Lemma passwordValid_true :
  ! hasAny (keys (doc m)) ["temporaryPassword"] |||
    (is_string (doc m).["temporaryPassword"] &&&
     rge (size (doc m).["temporaryPassword"]) 6) = Some true
  ↔ ∀ v, m !! "temporaryPassword" = Some v →
      ∃ s, v = VStr s ∧ (6 ≤ String.length s)%nat.
Proof.
  rewrite ror_true, rand_true, rnot_true. open_ops.
  by_field "temporaryPassword" v E.
  - split.
    + intros [H|[H1 H2]] w [= <-]; [discriminate|].
      destruct v; try discriminate. cbn in H2. injection H2 as H2.
      apply bool_decide_eq_true in H2. exists s. split; [done | lia].
    + intros H. destruct (H v eq_refl) as (s & -> & Hs). right. split; [done|].
      cbn. rewrite bool_decide_eq_true_2; [done | lia].
  - split; [intros _ w; discriminate | by left].
Qed.

Lemma profileValid_true :
  ! hasAny (keys (doc m)) ["firstName"; "lastName"] |||
    (is_string (doc m).["firstName"] &&& rgt (size (doc m).["firstName"]) 0 &&&
     is_string (doc m).["lastName"] &&& rgt (size (doc m).["lastName"]) 0) = Some true
  ↔ (is_Some (m !! "firstName") ∨ is_Some (m !! "lastName") →
      ∃ f l, m !! "firstName" = Some (VStr f) ∧ m !! "lastName" = Some (VStr l) ∧
             (0 < String.length f)%nat ∧ (0 < String.length l)%nat).
Proof.
  rewrite ror_true, !rand_true, rnot_true. open_ops.
  by_field "firstName" v1 E1; by_field "lastName" v2 E2; cbn [orb].
  - split.
    + intros [H|[[[H1 H2] H3] H4]] _; [discriminate|].
      destruct v1 as [| | |fn| | |], v2 as [| | |ln| | |]; try discriminate.
      cbn in H2, H4. injection H2 as H2. injection H4 as H4.
      apply bool_decide_eq_true in H2, H4. exists fn, ln. repeat split; lia.
    + intros H. destruct H as (f & l & [= ->] & [= ->] & Hf & Hl); [left; eauto|].
      right. cbn. rewrite !bool_decide_eq_true_2; [done | lia | lia].
  - split.
    + intros [H|[[_ H3] _]]; discriminate.
    + intros H. destruct H as (f & l & _ & [=] & _); left; eauto.
  - split.
    + intros [H|[[[H1 _] _] _]]; discriminate.
    + intros H. destruct H as (f & l & [=] & _); right; eauto.
  - split; [|by left]. intros _ [[? [=]]|[? [=]]].
Qed.

Lemma linkedinValid_true :
  ! hasAny (keys (doc m)) ["linkedin"] |||
    (doc m).["linkedin"] == str "" |||
    matches (doc m).["linkedin"] "https://.*linkedin.com/.*" |||
    matches (doc m).["linkedin"] "https://.*linkedin.com/in/.*" = Some true
  ↔ ∀ v, m !! "linkedin" = Some v →
      v = VStr "" ∨
      ∃ s, v = VStr s ∧
           (linkedin_url (chars s) ∨ linkedin_in_url (chars s)).
Proof.
  rewrite !ror_true, rnot_true. open_ops.
  fold linkedin_pattern_1 linkedin_pattern_2.
  by_field "linkedin" v E.
  - split.
    + intros H w [= <-]. destruct H as [[[H|H]|H]|H]; [discriminate| | |].
      * injection H as H. apply bool_decide_eq_true in H. by left.
      * destruct v; try discriminate. injection H as H%str_matches_pattern_1.
        right. eauto.
      * destruct v; try discriminate. injection H as H%str_matches_pattern_2.
        right. eauto.
    + intros H. destruct (H v eq_refl) as [->|(s & -> & [Hs|Hs])].
      * left; left; right. by rewrite bool_decide_eq_true_2.
      * left; right. apply str_matches_pattern_1 in Hs. by rewrite Hs.
      * right. apply str_matches_pattern_2 in Hs. by rewrite Hs.
  - split; [intros _ w; discriminate | by do 3 left].
Qed.

Lemma notificationValid_true :
  ! hasAny (keys (doc m)) ["notificationPreferences"] |||
    (hasAll (keys (doc m).["notificationPreferences"]) ["emailNotifications"] &&&
     is_bool (doc m).["notificationPreferences"].["emailNotifications"]) = Some true
  ↔ ∀ v, m !! "notificationPreferences" = Some v →
      ∃ p b, v = VMap p ∧ p !! "emailNotifications" = Some (VBool b).
Proof.
  rewrite ror_true, rand_true, rnot_true.
  unfold hasAny, hasAll, keys, member, is_bool.
  cbn [fmap option_fmap option_map existsb forallb].
  by_field "notificationPreferences" v E.
  - split.
    + intros [H|[H1 H2]] w [= <-]; [discriminate|].
      destruct v as [| | | | | |p]; try discriminate.
      exists p. destruct (p !! "emailNotifications") as [[]|];
        try discriminate. eauto.
    + intros H. destruct (H v eq_refl) as (p & b & -> & Hp). right.
      rewrite Hp. cbn. by rewrite (has_key_Some p _ _ Hp).
  - split; [intros _ w; discriminate | by left].
Qed.

Lemma isValidOnboardingData_true :
  isValidOnboardingData (doc m) = Some true ↔
    (∀ v, m !! "temporaryPassword" = Some v →
       ∃ s, v = VStr s ∧ (6 ≤ String.length s)%nat) ∧
    (is_Some (m !! "firstName") ∨ is_Some (m !! "lastName") →
       ∃ f l, m !! "firstName" = Some (VStr f) ∧ m !! "lastName" = Some (VStr l) ∧
              (0 < String.length f)%nat ∧ (0 < String.length l)%nat) ∧
    (∀ v, m !! "linkedin" = Some v →
       v = VStr "" ∨
       ∃ s, v = VStr s ∧
            (linkedin_url (chars s) ∨ linkedin_in_url (chars s))) ∧
    (∀ v, m !! "notificationPreferences" = Some v →
       ∃ p b, v = VMap p ∧ p !! "emailNotifications" = Some (VBool b)).
Proof.
  unfold isValidOnboardingData. cbv zeta.
  rewrite !rand_true, passwordValid_true, profileValid_true,
    linkedinValid_true, notificationValid_true.
  tauto.
Qed.
End OnboardingData.

(** ** The two predicates and the update rule *)

Section UpdateRule.
Implicit Types existing incoming : gmap string value.

Lemma core_fields_hasAll incoming :
  hasAll (keys (Some (VMap incoming))) ["name"; "email"; "status"] = Some true
  ↔ has_core_fields incoming.
Proof.
  rewrite hasAll_keys. unfold has_core_fields. split.
  - intros H. repeat split; apply H; set_solver.
  - intros (Hn & He & Hs) k Hk.
    apply elem_of_cons in Hk as [->|Hk]; [done|].
    apply elem_of_cons in Hk as [->|Hk]; [done|].
    by apply list_elem_of_singleton in Hk as ->.
Qed.

(** When [isValidOnboardingUpdate] approves. *)
Lemma onboarding_update_spec existing incoming :
  isValidOnboardingUpdate (stored existing) (write incoming) = Some true
  ↔ onboarding_contract existing incoming ∧ has_core_fields incoming.
Proof.
  unfold isValidOnboardingUpdate, isOnboardingFieldsOnly, onboarding_contract.
  cbv zeta. cbn [stored write data resource].
  rewrite !rand_true, core_fields_hasAll, hasOnly_keys,
    isValidOnboardingData_true, !req_true.
  unfold member, str, has_core_fields. rewrite !elem_of_dom. split.
  - intros (((((Hst & Hcore) & (v1 & Hv1 & Hv1')) & (v2 & Hv2 & Hv2')) & Hall) & Hdata).
    destruct Hst as (v & Hv & [= <-]).
    repeat split; try tauto; congruence.
  - intros ((Hst & Hall & (Hem & Hs) & Hdata) & (Hn & [v1 Hv1] & [v2 Hv2])).
    repeat split; try tauto; eauto.
    + exists v1. split; congruence.
    + exists v2. split; congruence.
Qed.

(** When [isAdminUpdate] approves. *)
Lemma admin_update_spec incoming :
  isAdminUpdate (write incoming) = Some true
  ↔ ("status" ∈ dom incoming ∨ "processedByAdminAt" ∈ dom incoming) ∨
    (("temporaryUserId" ∈ dom incoming ∨ "temporaryPassword" ∈ dom incoming) ∧
     incoming !! "status" = Some (VStr "accepted")).
Proof.
  unfold isAdminUpdate. cbv zeta. cbn [write data resource].
  rewrite ror_true, rand_true, !hasAny_keys, req_true. unfold member, str.
  split.
  - intros [(k & Hk & Hd)|[(k & Hk & Hd) (v & Hv & [= <-])]].
    + left. apply elem_of_cons in Hk as [->|Hk]; [by left|].
      apply list_elem_of_singleton in Hk as ->. by right.
    + right. split; [|done]. apply elem_of_cons in Hk as [->|Hk]; [by left|].
      apply list_elem_of_singleton in Hk as ->. by right.
  - intros [[H|H]|[[H|H] Hs]].
    + left. exists "status". split; [set_solver | done].
    + left. exists "processedByAdminAt". split; [set_solver | done].
    + right. split; [|eauto]. exists "temporaryUserId". split; [set_solver | done].
    + right. split; [|eauto]. exists "temporaryPassword". split; [set_solver | done].
Qed.

(** The credential branch adds nothing: it needs [status] in the field
    set, which the status branch already accepts. *)
Lemma admin_update_fields incoming :
  isAdminUpdate (write incoming) = Some true
  ↔ "status" ∈ dom incoming ∨ "processedByAdminAt" ∈ dom incoming.
Proof.
  rewrite admin_update_spec. split; [|tauto].
  intros [H|[_ H]]; [done|]. left. apply elem_of_dom. eauto.
Qed.

Lemma update_rule_spec existing incoming :
  contactSubmissions_update (stored existing) (write incoming) = true
  ↔ isValidOnboardingUpdate (stored existing) (write incoming) = Some true ∨
    isAdminUpdate (write incoming) = Some true.
Proof. unfold contactSubmissions_update. by rewrite allow_true, ror_true. Qed.

(** Where the onboarding predicate does not approve, the rule denies
    exactly the writes without [status] and [processedByAdminAt]. *)
Lemma update_rule_denies existing incoming :
  isValidOnboardingUpdate (stored existing) (write incoming) ≠ Some true →
  (contactSubmissions_update (stored existing) (write incoming) = false
   ↔ ("status" ∉ dom incoming) ∧ ("processedByAdminAt" ∉ dom incoming)).
Proof.
  intros Hno. rewrite <- not_true_iff_false, update_rule_spec, admin_update_fields.
  tauto.
Qed.

Lemma update_rule_status existing incoming :
  "status" ∈ dom incoming →
  contactSubmissions_update (stored existing) (write incoming) = true.
Proof. intros H. apply update_rule_spec. right. apply admin_update_fields. by left. Qed.
End UpdateRule.

(** ** Setting one optional field of an otherwise valid update *)

Section SetField.
Variables existing incoming : gmap string value.
Variable k : string.
Hypothesis k_allowed : k ∈ allowedFields.
Hypothesis k_email : k ≠ "email".
Hypothesis k_status : k ≠ "status".
Hypothesis rest_valid :
  isValidOnboardingUpdate (stored existing) (write (delete k incoming)) = Some true.

Lemma set_field_status v : "status" ∈ dom (<[k:=v]> incoming).
Proof.
  apply onboarding_update_spec in rest_valid as [_ (_ & _ & Hs)].
  rewrite dom_delete_L in Hs. apply elem_of_difference in Hs as [Hs _].
  rewrite dom_insert_L. apply elem_of_union. by right.
Qed.

Lemma set_field_granted v :
  contactSubmissions_update (stored existing) (write (<[k:=v]> incoming)) = true.
Proof. apply update_rule_status, set_field_status. Qed.

(** The conditions that do not read field [k] carry over. *)
Lemma set_field_frame v :
  existing !! "status" = Some (VStr "accepted") ∧
  (∀ x, x ∈ dom (<[k:=v]> incoming) → x ∈ allowedFields) ∧
  (<[k:=v]> incoming !! "email" = existing !! "email" ∧
   <[k:=v]> incoming !! "status" = existing !! "status") ∧
  has_core_fields (<[k:=v]> incoming) ∧
  (∀ x, x ≠ k → <[k:=v]> incoming !! x = delete k incoming !! x).
Proof.
  apply onboarding_update_spec in rest_valid
    as [(Hst & Hall & [He Hs] & _) (Hcn & Hce & Hcs)].
  rewrite lookup_delete_ne in He, Hs by done.
  unfold has_core_fields. rewrite dom_delete_L in Hall, Hcn, Hce, Hcs.
  rewrite dom_insert_L, !lookup_insert_ne by done.
  apply elem_of_difference in Hcn as [Hcn _], Hce as [Hce _], Hcs as [Hcs _].
  repeat apply conj; try assumption; try (apply elem_of_union; by right).
  - intros x [->%elem_of_singleton|Hx]%elem_of_union; [done|].
    destruct (decide (x = k)) as [->|Hne]; [done|].
    apply Hall, elem_of_difference. split; [done|].
    by intros ?%elem_of_singleton.
  - intros x Hx. by rewrite lookup_insert_ne, lookup_delete_ne.
Qed.
End SetField.

Lemma allowed_temporaryPassword : "temporaryPassword" ∈ allowedFields.
Proof. unfold allowedFields. do 4 apply list_elem_of_further. apply list_elem_of_here. Qed.

Lemma allowed_linkedin : "linkedin" ∈ allowedFields.
Proof. unfold allowedFields. do 9 apply list_elem_of_further. apply list_elem_of_here. Qed.

(** Setting [temporaryPassword] to a string in an update whose other fields
    pass: the onboarding predicate approves exactly the strings of length at
    least 6. *)
Lemma onboarding_password existing incoming s :
  isValidOnboardingUpdate (stored existing)
    (write (delete "temporaryPassword" incoming)) = Some true →
  (isValidOnboardingUpdate (stored existing)
     (write (<["temporaryPassword" := VStr s]> incoming)) = Some true
   ↔ (6 ≤ String.length s)%nat).
Proof.
  intros Hrest.
  destruct (set_field_frame existing incoming "temporaryPassword"
              allowed_temporaryPassword ltac:(discriminate) ltac:(discriminate) Hrest (VStr s))
    as (Hst & Hall & [He Hs] & Hcore & Hother).
  apply onboarding_update_spec in Hrest as [(_ & _ & _ & _ & Hp & Hl & Hn) _].
  rewrite onboarding_update_spec. unfold onboarding_contract.
  rewrite !(Hother "firstName"), !(Hother "lastName"), !(Hother "linkedin"),
    !(Hother "notificationPreferences") by discriminate.
  rewrite lookup_insert_eq. split.
  - intros [(_ & _ & _ & Hpw & _) _].
    destruct (Hpw _ eq_refl) as (s' & [= <-] & Hlen). done.
  - intros Hlen. split; [|exact Hcore].
    repeat apply conj; try assumption. intros v [= <-]. eauto.
Qed.

(** Setting [linkedin] to a string in an update whose other fields pass:
    the onboarding predicate approves exactly the empty string and the
    strings matching one of the two patterns. *)
Lemma onboarding_linkedin existing incoming s :
  isValidOnboardingUpdate (stored existing)
    (write (delete "linkedin" incoming)) = Some true →
  (isValidOnboardingUpdate (stored existing)
     (write (<["linkedin" := VStr s]> incoming)) = Some true
   ↔ s = "" ∨ linkedin_url (chars s) ∨ linkedin_in_url (chars s)).
Proof.
  intros Hrest.
  destruct (set_field_frame existing incoming "linkedin"
              allowed_linkedin ltac:(discriminate) ltac:(discriminate) Hrest (VStr s))
    as (Hst & Hall & [He Hs] & Hcore & Hother).
  apply onboarding_update_spec in Hrest as [(_ & _ & _ & Hpw & Hp & _ & Hn) _].
  rewrite onboarding_update_spec. unfold onboarding_contract.
  rewrite !(Hother "firstName"), !(Hother "lastName"), !(Hother "temporaryPassword"),
    !(Hother "notificationPreferences") by discriminate.
  rewrite lookup_insert_eq. split.
  - intros [(_ & _ & _ & _ & _ & Hl & _) _].
    destruct (Hl _ eq_refl) as [[= ->]|(s' & [= <-] & Hm)]; tauto.
  - intros Hm. split; [|exact Hcore].
    repeat apply conj; try assumption. intros v [= <-].
    destruct Hm as [->|Hm]; [by left | right; eauto].
Qed.

Lemma isAdmin_not_allowed : "isAdmin" ∉ allowedFields.
Proof.
  intros H. apply (bool_decide_pack _) in H. vm_compute in H. exact H.
Qed.

Lemma onboarding_core_fields_missing existing incoming :
  ¬ has_core_fields incoming →
  isValidOnboardingUpdate (stored existing) (write incoming) = Some false.
Proof.
  intros Hmiss. unfold isValidOnboardingUpdate. cbv zeta. cbn [stored write data resource].
  do 4 apply rand_false_l. apply rand_false_r.
  destruct (decide ("name" ∈ dom incoming)) as [Hn|Hn];
    [|apply (hasAll_keys_false _ _ "name"); [set_solver | done]].
  destruct (decide ("email" ∈ dom incoming)) as [He|He];
    [|apply (hasAll_keys_false _ _ "email"); [set_solver | done]].
  destruct (decide ("status" ∈ dom incoming)) as [Hs|Hs];
    [|apply (hasAll_keys_false _ _ "status"); [set_solver | done]].
  by destruct Hmiss.
Qed.

(** * Properties of the contactSubmissions update rule *)

(** Tactics for closed facts about concrete documents. *)
Ltac no_field := let H := fresh in
  first [ intros ? H | intros [[? H]|[? H]] ]; vm_compute in H; discriminate.
Ltac concrete_contract :=
  unfold onboarding_contract;
  repeat apply conj;
  [ vm_compute; reflexivity
  | apply hasOnly_keys; vm_compute; reflexivity
  | vm_compute; reflexivity
  | vm_compute; reflexivity
  | no_field | no_field | no_field | no_field ].

(** C1, as stated, fails: the seven conditions of the contract hold for
    [update_without_name] against [accepted_doc], and the onboarding
    predicate does not approve it. *)
Lemma onboarding_contract_not_sufficient :
  ¬ (isValidOnboardingUpdate (stored accepted_doc) (write update_without_name) = Some true
     ↔ onboarding_contract accepted_doc update_without_name).
Proof.
  intros [_ H].
  assert (Hc : onboarding_contract accepted_doc update_without_name)
    by concrete_contract.
  apply H in Hc. vm_compute in Hc. discriminate.
Qed.

(** C1 (amended): the onboarding predicate approves an update exactly when
    the seven conditions of the contract hold and, in addition, the incoming
    field set contains [name], [email] and [status]. *)
Theorem isValidOnboardingUpdate_iff_contract (existing incoming : gmap string value) :
  isValidOnboardingUpdate (stored existing) (write incoming) = Some true
  ↔ onboarding_contract existing incoming ∧ has_core_fields incoming.
Proof.
  unfold isValidOnboardingUpdate, isOnboardingFieldsOnly. cbv zeta.
  cbn [stored write data resource].
  (* one equation per conjunct of the predicate *)
  rewrite !rand_true, !req_true, core_fields_hasAll, hasOnly_keys,
    isValidOnboardingData_true.
  unfold onboarding_contract, has_core_fields, member, str.
  rewrite !elem_of_dom. split.
  - intros ((((([v [Hv [= <-]]] & Hcore) & (e & Hie & Hee)) & (t & Hit & Het)) & Hall) & Hdata).
    split; [|exact Hcore].
    split; [exact Hv|]. split; [exact Hall|].
    split; [split; congruence | exact Hdata].
  - intros ((Hst & Hall & [Hem Hs] & Hpw & Hpr & Hli & Hno) & (Hn & [e He] & [t Ht])).
    repeat apply conj; try assumption; eauto.
    + exists e. split; congruence.
    + exists t. split; congruence.
Qed.

(** C2, as stated, fails: [pending_doc] is not accepted, the fields of
    [update_self_accept] all lie in the allow-list, and the update rule
    grants the write. *)
Lemma pending_onboarding_fields_granted :
  pending_doc !! "status" ≠ Some (VStr "accepted") ∧
  (∀ k, k ∈ dom update_self_accept → k ∈ allowedFields) ∧
  contactSubmissions_update (stored pending_doc) (write update_self_accept) = true.
Proof.
  repeat apply conj.
  - intros H. vm_compute in H. discriminate.
  - apply hasOnly_keys. vm_compute. reflexivity.
  - vm_compute. reflexivity.
Qed.

(** C2 (amended): for an existing document whose status is not [accepted]
    and an incoming update whose fields all lie in the onboarding allow-list,
    the onboarding predicate does not approve, and the update rule denies the
    write exactly when the incoming field set does not contain [status]. *)
Theorem not_accepted_onboarding_fields (existing incoming : gmap string value) :
  existing !! "status" ≠ Some (VStr "accepted") →
  (∀ k, k ∈ dom incoming → k ∈ allowedFields) →
  isValidOnboardingUpdate (stored existing) (write incoming) ≠ Some true ∧
  (contactSubmissions_update (stored existing) (write incoming) = false
   ↔ "status" ∉ dom incoming).
Proof.
  intros Hst Hall.
  assert (Hno : isValidOnboardingUpdate (stored existing) (write incoming) ≠ Some true).
  { rewrite onboarding_update_spec. intros [(H & _) _]. done. }
  split; [done|]. rewrite (update_rule_denies _ _ Hno). split; [tauto|].
  intros Hs. split; [done|]. intros Hp%Hall. vm_compute in Hp.
  repeat (apply elem_of_cons in Hp as [Hp|Hp]; [discriminate|]).
  by apply elem_of_nil in Hp.
Qed.

Lemma not_accepted_onboarding_fields_witness :
  pending_doc !! "status" ≠ Some (VStr "accepted") ∧
  (∀ k, k ∈ dom (delete "status" update_self_accept) → k ∈ allowedFields) ∧
  contactSubmissions_update (stored pending_doc)
    (write (delete "status" update_self_accept)) = false.
Proof.
  assert (H1 : pending_doc !! "status" ≠ Some (VStr "accepted")).
  { intros H. vm_compute in H. discriminate. }
  assert (H2 : ∀ k, k ∈ dom (delete "status" update_self_accept) → k ∈ allowedFields).
  { apply hasOnly_keys. vm_compute. reflexivity. }
  repeat apply conj; [exact H1 | exact H2 |].
  apply (not_accepted_onboarding_fields pending_doc _ H1 H2).
  apply not_elem_of_dom. vm_compute. reflexivity.
Defined.

(** C3: an incoming update whose field set contains [status] or
    [processedByAdminAt] is granted by the update rule, whatever the existing
    document and whatever the incoming field values. *)
Theorem status_or_processed_granted (existing incoming : gmap string value) :
  "status" ∈ dom incoming ∨ "processedByAdminAt" ∈ dom incoming →
  contactSubmissions_update (stored existing) (write incoming) = true.
Proof.
  intros H. apply update_rule_spec. right. by apply admin_update_fields.
Qed.

Lemma status_or_processed_granted_witness :
  ("status" ∈ dom update_arbitrary ∨ "processedByAdminAt" ∈ dom update_arbitrary) ∧
  contactSubmissions_update (stored ∅) (write update_arbitrary) = true.
Proof.
  assert (H : "status" ∈ dom update_arbitrary ∨
              "processedByAdminAt" ∈ dom update_arbitrary).
  { left. apply elem_of_dom. vm_compute. eexists. reflexivity. }
  split; [exact H|]. exact (status_or_processed_granted ∅ update_arbitrary H).
Defined.

(** C4, as stated, fails: [accepted_doc] is accepted, the incoming status
    differs from the existing one, and the update rule grants the write. *)
Lemma accepted_status_change_granted :
  accepted_doc !! "status" = Some (VStr "accepted") ∧
  (update_status_changed !! "email" ≠ accepted_doc !! "email" ∨
   update_status_changed !! "status" ≠ accepted_doc !! "status") ∧
  contactSubmissions_update (stored accepted_doc) (write update_status_changed) = true.
Proof.
  repeat apply conj.
  - vm_compute. reflexivity.
  - right. intros H. vm_compute in H. discriminate.
  - vm_compute. reflexivity.
Qed.

(** C4 (amended): for an accepted submission and an incoming update whose
    email or status differs from the existing one, the onboarding predicate
    does not approve, and the update rule denies the write exactly when the
    incoming field set contains neither [status] nor [processedByAdminAt];
    email and status are unchanged across every update that the onboarding
    predicate approves. *)
Theorem accepted_email_status_change (existing incoming : gmap string value) :
  (existing !! "status" = Some (VStr "accepted") →
   incoming !! "email" ≠ existing !! "email" ∨
   incoming !! "status" ≠ existing !! "status" →
   isValidOnboardingUpdate (stored existing) (write incoming) ≠ Some true ∧
   (contactSubmissions_update (stored existing) (write incoming) = false
    ↔ ("status" ∉ dom incoming) ∧ ("processedByAdminAt" ∉ dom incoming))) ∧
  (isValidOnboardingUpdate (stored existing) (write incoming) = Some true →
   incoming !! "email" = existing !! "email" ∧
   incoming !! "status" = existing !! "status").
Proof.
  split.
  - intros _ Hdiff.
    assert (Hno : isValidOnboardingUpdate (stored existing) (write incoming) ≠ Some true).
    { rewrite onboarding_update_spec. intros [(_ & _ & [He Hs] & _) _].
      destruct Hdiff; done. }
    split; [done|]. by apply update_rule_denies.
  - rewrite onboarding_update_spec. by intros [(_ & _ & H & _) _].
Qed.

Lemma accepted_email_status_change_witness :
  accepted_doc !! "status" = Some (VStr "accepted") ∧
  (delete "status" update_status_changed !! "email" ≠ accepted_doc !! "email" ∨
   delete "status" update_status_changed !! "status" ≠ accepted_doc !! "status") ∧
  contactSubmissions_update (stored accepted_doc)
    (write (delete "status" update_status_changed)) = false ∧
  isValidOnboardingUpdate (stored accepted_doc) (write update_self_accept) = Some true ∧
  update_self_accept !! "email" = accepted_doc !! "email".
Proof.
  assert (H1 : accepted_doc !! "status" = Some (VStr "accepted"))
    by (vm_compute; reflexivity).
  assert (H2 : delete "status" update_status_changed !! "email" ≠ accepted_doc !! "email" ∨
               delete "status" update_status_changed !! "status" ≠ accepted_doc !! "status").
  { right. intros H. vm_compute in H. discriminate. }
  assert (H3 : isValidOnboardingUpdate (stored accepted_doc) (write update_self_accept)
               = Some true) by (vm_compute; reflexivity).
  repeat apply conj; [exact H1 | exact H2 | | exact H3 |].
  - apply (proj1 (accepted_email_status_change accepted_doc _) H1 H2).
    split; apply not_elem_of_dom; vm_compute; reflexivity.
  - apply (proj2 (accepted_email_status_change accepted_doc update_self_accept) H3).
Defined.

(** C5: [isAdminUpdate] approves exactly when the incoming field set meets
    [status] or [processedByAdminAt], or meets [temporaryUserId] or
    [temporaryPassword] while the incoming status is [accepted]; a write that
    sets status to [accepted] together with a credential field is granted by
    the update rule for every existing document, also where the onboarding
    predicate does not approve it. *)
Theorem isAdminUpdate_iff :
  (∀ incoming : gmap string value,
     isAdminUpdate (write incoming) = Some true
     ↔ ("status" ∈ dom incoming ∨ "processedByAdminAt" ∈ dom incoming) ∨
       (("temporaryUserId" ∈ dom incoming ∨ "temporaryPassword" ∈ dom incoming) ∧
        incoming !! "status" = Some (VStr "accepted"))) ∧
  (∀ existing incoming : gmap string value,
     incoming !! "status" = Some (VStr "accepted") →
     "temporaryUserId" ∈ dom incoming ∨ "temporaryPassword" ∈ dom incoming →
     contactSubmissions_update (stored existing) (write incoming) = true) ∧
  isValidOnboardingUpdate (stored pending_doc) (write update_issue_credentials)
    ≠ Some true ∧
  contactSubmissions_update (stored pending_doc) (write update_issue_credentials) = true.
Proof.
  repeat apply conj.
  - apply admin_update_spec.
  - intros existing incoming Hs Hc. apply update_rule_spec. right.
    apply admin_update_spec. right. done.
  - vm_compute. discriminate.
  - vm_compute. reflexivity.
Qed.

Lemma isAdminUpdate_iff_witness :
  update_issue_credentials !! "status" = Some (VStr "accepted") ∧
  ("temporaryUserId" ∈ dom update_issue_credentials ∨
   "temporaryPassword" ∈ dom update_issue_credentials) ∧
  contactSubmissions_update (stored accepted_doc) (write update_issue_credentials) = true.
Proof.
  assert (H1 : update_issue_credentials !! "status" = Some (VStr "accepted"))
    by (vm_compute; reflexivity).
  assert (H2 : "temporaryUserId" ∈ dom update_issue_credentials ∨
               "temporaryPassword" ∈ dom update_issue_credentials).
  { left. apply elem_of_dom. vm_compute. eexists. reflexivity. }
  repeat apply conj; [exact H1 | exact H2 |].
  exact (proj1 (proj2 isAdminUpdate_iff) accepted_doc update_issue_credentials H1 H2).
Defined.

(** C6, as stated, fails: the other fields of the update pass every check of
    the onboarding predicate, the password has three characters, and the
    update rule grants the write. *)
Lemma short_password_granted :
  accepted_doc !! "status" = Some (VStr "accepted") ∧
  isValidOnboardingUpdate (stored accepted_doc)
    (write (delete "temporaryPassword" update_profile)) = Some true ∧
  (String.length "abc" < 6)%nat ∧
  contactSubmissions_update (stored accepted_doc)
    (write (<["temporaryPassword" := VStr "abc"]> update_profile)) = true.
Proof.
  repeat apply conj; try (vm_compute; reflexivity). simpl. lia.
Qed.

(** C6 (amended): in an update whose fields other than [temporaryPassword]
    pass the onboarding predicate, a password string shorter than 6
    characters makes the onboarding predicate reject the write and one of
    length at least 6 makes it approve; the update rule grants the write in
    both cases, because such an update carries [status]. *)
Theorem temporaryPassword_length (existing incoming : gmap string value) (s : string) :
  isValidOnboardingUpdate (stored existing)
    (write (delete "temporaryPassword" incoming)) = Some true →
  ((String.length s < 6)%nat →
   isValidOnboardingUpdate (stored existing)
     (write (<["temporaryPassword" := VStr s]> incoming)) ≠ Some true) ∧
  ((6 ≤ String.length s)%nat →
   isValidOnboardingUpdate (stored existing)
     (write (<["temporaryPassword" := VStr s]> incoming)) = Some true) ∧
  contactSubmissions_update (stored existing)
    (write (<["temporaryPassword" := VStr s]> incoming)) = true.
Proof.
  intros Hrest. repeat apply conj.
  - intros Hlt H. apply (onboarding_password _ _ _ Hrest) in H. lia.
  - intros Hge. by apply onboarding_password.
  - by apply set_field_granted.
Qed.

Lemma temporaryPassword_length_witness :
  isValidOnboardingUpdate (stored accepted_doc)
    (write (delete "temporaryPassword" update_profile)) = Some true ∧
  (6 ≤ String.length "s3cr3t!")%nat ∧
  isValidOnboardingUpdate (stored accepted_doc)
    (write (<["temporaryPassword" := VStr "s3cr3t!"]> update_profile)) = Some true.
Proof.
  assert (H1 : isValidOnboardingUpdate (stored accepted_doc)
                 (write (delete "temporaryPassword" update_profile)) = Some true)
    by (vm_compute; reflexivity).
  assert (H2 : (6 ≤ String.length "s3cr3t!")%nat) by (simpl; lia).
  repeat apply conj; [exact H1 | exact H2 |].
  exact (proj1 (proj2 (temporaryPassword_length accepted_doc update_profile "s3cr3t!" H1)) H2).
Defined.

(** C7, as stated, fails: the other fields of the update pass every check of
    the onboarding predicate, [linkedin] is ["https://example.com"], and the
    update rule grants the write. *)
Lemma foreign_linkedin_granted :
  accepted_doc !! "status" = Some (VStr "accepted") ∧
  isValidOnboardingUpdate (stored accepted_doc)
    (write (delete "linkedin" update_profile)) = Some true ∧
  contactSubmissions_update (stored accepted_doc)
    (write (<["linkedin" := VStr "https://example.com"]> update_profile)) = true.
Proof.
  repeat apply conj; vm_compute; reflexivity.
Qed.

(** C7 (amended): in an update whose fields other than [linkedin] pass the
    onboarding predicate, setting [linkedin] to ["https://example.com"] makes
    the onboarding predicate reject the write, and setting it to
    ["https://www.linkedin.com/in/jdoe"] or to the empty string makes it
    approve; the update rule grants the write in all three cases, because
    such an update carries [status]. *)
Theorem linkedin_values (existing incoming : gmap string value) :
  isValidOnboardingUpdate (stored existing)
    (write (delete "linkedin" incoming)) = Some true →
  isValidOnboardingUpdate (stored existing)
    (write (<["linkedin" := VStr "https://example.com"]> incoming)) ≠ Some true ∧
  isValidOnboardingUpdate (stored existing)
    (write (<["linkedin" := VStr "https://www.linkedin.com/in/jdoe"]> incoming))
    = Some true ∧
  isValidOnboardingUpdate (stored existing)
    (write (<["linkedin" := VStr ""]> incoming)) = Some true ∧
  (∀ s, contactSubmissions_update (stored existing)
          (write (<["linkedin" := VStr s]> incoming)) = true).
Proof.
  intros Hrest. repeat apply conj.
  - intros H. apply (onboarding_linkedin _ _ _ Hrest) in H.
    destruct H as [H|[H%str_matches_pattern_1|H%str_matches_pattern_2]];
      [discriminate | vm_compute in H .. ]; discriminate.
  - apply onboarding_linkedin; [done|]. right. left.
    apply str_matches_pattern_1. vm_compute. reflexivity.
  - apply onboarding_linkedin; [done|]. by left.
  - intros s. by apply set_field_granted.
Qed.

Lemma linkedin_values_witness :
  isValidOnboardingUpdate (stored accepted_doc)
    (write (delete "linkedin" update_profile)) = Some true ∧
  isValidOnboardingUpdate (stored accepted_doc)
    (write (<["linkedin" := VStr "https://www.linkedin.com/in/jdoe"]> update_profile))
    = Some true.
Proof.
  assert (H1 : isValidOnboardingUpdate (stored accepted_doc)
                 (write (delete "linkedin" update_profile)) = Some true)
    by (vm_compute; reflexivity).
  split; [exact H1|].
  exact (proj1 (proj2 (linkedin_values accepted_doc update_profile H1))).
Defined.

(** C8, as stated, fails: [isAdmin] lies outside the allow-list, the rest of
    the update passes every check of the onboarding predicate, and the update
    rule grants the write. *)
Lemma field_outside_allow_list_granted :
  "isAdmin" ∈ dom (<["isAdmin" := VBool true]> update_profile) ∧
  ("isAdmin" ∉ allowedFields) ∧
  isValidOnboardingUpdate (stored accepted_doc)
    (write (delete "isAdmin" (<["isAdmin" := VBool true]> update_profile))) = Some true ∧
  contactSubmissions_update (stored accepted_doc)
    (write (<["isAdmin" := VBool true]> update_profile)) = true.
Proof.
  repeat apply conj; try (vm_compute; reflexivity).
  exact isAdmin_not_allowed.
Qed.

(** C8 (amended): an incoming update with a field outside the allow-list of
    [isOnboardingFieldsOnly] is not approved by the onboarding predicate, and
    the update rule denies the write exactly when the incoming field set
    contains neither [status] nor [processedByAdminAt]. *)
Theorem field_outside_allow_list (existing incoming : gmap string value) (k : string) :
  k ∈ dom incoming →
  k ∉ allowedFields →
  isValidOnboardingUpdate (stored existing) (write incoming) ≠ Some true ∧
  (contactSubmissions_update (stored existing) (write incoming) = false
   ↔ ("status" ∉ dom incoming) ∧ ("processedByAdminAt" ∉ dom incoming)).
Proof.
  intros Hk Hout.
  assert (Hno : isValidOnboardingUpdate (stored existing) (write incoming) ≠ Some true).
  { rewrite onboarding_update_spec. intros [(_ & Hall & _) _]. by apply Hout, Hall. }
  split; [done|]. by apply update_rule_denies.
Qed.

Lemma field_outside_allow_list_witness :
  "isAdmin" ∈ dom (<["isAdmin" := VBool true]> (delete "status" update_profile)) ∧
  ("isAdmin" ∉ allowedFields) ∧
  contactSubmissions_update (stored accepted_doc)
    (write (<["isAdmin" := VBool true]> (delete "status" update_profile))) = false.
Proof.
  assert (H1 : "isAdmin" ∈ dom (<["isAdmin" := VBool true]> (delete "status" update_profile))).
  { apply elem_of_dom. vm_compute. eexists. reflexivity. }
  repeat apply conj; [exact H1 | exact isAdmin_not_allowed |].
  apply (proj2 (field_outside_allow_list accepted_doc _ "isAdmin" H1 isAdmin_not_allowed)).
  split; apply not_elem_of_dom; vm_compute; reflexivity.
Defined.

(** C9: the onboarding predicate approves only updates whose field set
    contains [name], [email] and [status]; an update that omits one of them
    evaluates to [false], also where the seven conditions of the contract
    hold, as for [update_phone_without_name]. *)
Theorem onboarding_requires_core_fields :
  (∀ existing incoming : gmap string value,
     isValidOnboardingUpdate (stored existing) (write incoming) = Some true →
     "name" ∈ dom incoming ∧ "email" ∈ dom incoming ∧ "status" ∈ dom incoming) ∧
  (∀ existing incoming : gmap string value,
     "name" ∉ dom incoming ∨ "email" ∉ dom incoming ∨ "status" ∉ dom incoming →
     isValidOnboardingUpdate (stored existing) (write incoming) = Some false) ∧
  (onboarding_contract accepted_doc update_phone_without_name ∧
   isValidOnboardingUpdate (stored accepted_doc) (write update_phone_without_name)
     = Some false).
Proof.
  split; [|split; [|split]].
  - intros existing incoming H. by apply onboarding_update_spec in H as [_ H].
  - intros existing incoming H. apply onboarding_core_fields_missing.
    unfold has_core_fields. tauto.
  - concrete_contract.
  - vm_compute. reflexivity.
Qed.

Lemma onboarding_requires_core_fields_witness :
  ("name" ∉ dom update_without_name ∨ "email" ∉ dom update_without_name ∨
   "status" ∉ dom update_without_name) ∧
  isValidOnboardingUpdate (stored accepted_doc) (write update_without_name) = Some false.
Proof.
  assert (H : "name" ∉ dom update_without_name ∨ "email" ∉ dom update_without_name ∨
              "status" ∉ dom update_without_name).
  { left. apply not_elem_of_dom. vm_compute. reflexivity. }
  split; [exact H|].
  exact (proj1 (proj2 onboarding_requires_core_fields) accepted_doc update_without_name H).
Defined.

(** * The rule files as a whole *)


Section Matching.
Implicit Types (a : Access) (p rest : list string) (pat : list segment).

Lemma suffixes_nil p : [] ∈ suffixes p.
Proof.
  induction p as [|x p IH]; simpl; [apply list_elem_of_here|].
  by apply list_elem_of_further.
Qed.

Lemma consume_rec x p : consume [Rec x] p = suffixes p.
Proof.
  simpl. induction (suffixes p) as [|q l IH]; simpl; [done | by rewrite IH].
Qed.

Lemma existsb_elem {A} (f : A → bool) (l : list A) x :
  x ∈ l → f x = true → existsb f l = true.
Proof.
  intros Hx Hf. apply existsb_exists. exists x. split; [by apply list_elem_of_In | done].
Qed.

(** A statement for every method with a true condition. *)
Lemma stmt_all_methods a : stmt_allows a (Allow (reads ++ writes) always) = true.
Proof. unfold stmt_allows. by destruct (acc_method a). Qed.

Lemma stmts_read_write a :
  existsb (stmt_allows a) [Allow reads always; Allow writes always] = true.
Proof. unfold stmt_allows. simpl. by destruct (acc_method a). Qed.

(** The service block hands the path below its root to its nested blocks. *)
Lemma service_allows a r1 d r2 bs db p :
  block_allows a (Match [Lit r1; Var d; Lit r2] [] bs) (r1 :: db :: r2 :: p)
  = blocks_allow a bs p.
Proof.
  cbn [block_allows consume]. rewrite !String.eqb_refl.
  cbn [existsb]. by rewrite andb_false_r, orb_false_r.
Qed.

(** A block rooted at a literal grants nothing below another collection. *)
Lemma block_other_root a s pat allows inner c rest :
  c ≠ s → block_allows a (Match (Lit s :: pat) allows inner) (c :: rest) = false.
Proof.
  intros Hne. cbn [block_allows consume].
  by apply String.eqb_neq in Hne as ->.
Qed.

Lemma block_empty_path a s pat allows inner :
  block_allows a (Match (Lit s :: pat) allows inner) [] = false.
Proof. done. Qed.

Lemma catch_all_allows a p : block_allows a catch_all p = true.
Proof.
  unfold catch_all. cbn [block_allows]. rewrite consume_rec.
  apply (existsb_elem _ _ []); [apply suffixes_nil|].
  cbn [existsb]. by rewrite stmt_all_methods.
Qed.
End Matching.

(** X1: every request for a document path below
    [/databases/{database}/documents] is granted by [firestore.rules],
    whatever the method, the client, the stored document and the incoming
    data: the catch-all block [match /{document=**}] allows it. *)
Theorem firestore_rules_grant_everything (a : Access) (db : string) (p : list string) :
  block_allows a firestore_rules ("databases" :: db :: "documents" :: p) = true.
Proof.
  unfold firestore_rules. rewrite service_allows.
  unfold blocks_allow. rewrite existsb_app. cbn [existsb].
  by rewrite catch_all_allows, orb_true_r.
Qed.

Lemma signed_in_eval a : allow (signed_in a) = signed_in_b a.
Proof.
  unfold signed_in, signed_in_b, request_auth, null, rneq.
  destruct (acc_auth a); cbn; [by rewrite bool_decide_eq_false_2 | by rewrite bool_decide_eq_true_2].
Qed.

Ltac open_blocks :=
  unfold blocks_allow, declared_blocks, admin_config, evaluationCriteria,
    contactSubmissions, offCampusApplications, events, mentors, startups,
    mentorRequests, notifications, users, submissions, emailTokens,
    evaluation_rounds, notifications_evaluation, analysisUploads, analysis;
  cbn [existsb].

Lemma block_lit a s pat allows inner c rest :
  block_allows a (Match (Lit s :: pat) allows inner) (c :: rest)
  = String.eqb c s && block_allows a (Match pat allows inner) rest.
Proof. cbn [block_allows consume]. by destruct (String.eqb c s). Qed.

(** Decide the comparisons of two string literals. *)
Ltac eqb_literals :=
  repeat match goal with
  | |- context [String.eqb ?x ?y] =>
      let b := eval vm_compute in (String.eqb x y) in
      match b with
      | true => change (String.eqb x y) with true
      | false => change (String.eqb x y) with false
      end
  end;
  cbn [andb orb].

(** Select the blocks of the file rooted at the first segment of the path. *)
Ltac select_blocks := open_blocks; rewrite !block_lit; eqb_literals.

(** X2: what the blocks before the catch-all grant on
    [contactSubmissions/{id}]: [get] and [list] to signed-in clients,
    [create] to everyone, [update] by [contactSubmissions_update], and
    [delete] to no one. *)
Theorem contactSubmissions_block_table (a : Access) (id : string) :
  blocks_allow a declared_blocks ["contactSubmissions"; id] =
  match acc_method a with
  | Get | List => signed_in_b a
  | Create => true
  | Update => contactSubmissions_update (acc_resource a) (acc_request a)
  | Delete => false
  end.
Proof.
  select_blocks. cbn [block_allows consume existsb orb]. unfold stmt_allows. cbn [methods cond].
  rewrite signed_in_eval. unfold contactSubmissions_update.
  destruct (acc_method a); cbn; rewrite ?orb_false_r; reflexivity.
Qed.

Lemma doc_block a c x allows p :
  block_allows a (Match [Lit c; Var x] allows []) p =
  match p with
  | [c'; _] => String.eqb c' c && existsb (stmt_allows a) allows
  | _ => false
  end.
Proof.
  cbn [block_allows consume].
  destruct p as [|c' [|id [|y p']]]; [done | ..];
    destruct (String.eqb c' c); cbn; rewrite ?orb_false_r; done.
Qed.

(** X3: what the blocks before the catch-all grant on
    [offCampusApplications/{id}]: [get] and [list] to signed-in clients,
    [create] and [update] to everyone, [delete] to no one. *)
Theorem offCampusApplications_block_table (a : Access) (id : string) :
  blocks_allow a declared_blocks ["offCampusApplications"; id] =
  match acc_method a with
  | Get | List => signed_in_b a
  | Create | Update => true
  | Delete => false
  end.
Proof.
  select_blocks. cbn [block_allows consume existsb orb]. unfold stmt_allows. cbn [methods cond]. rewrite signed_in_eval.
  destruct (acc_method a); cbn; rewrite ?orb_false_r; reflexivity.
Qed.

(** X4: below [admin_config] the blocks before the catch-all grant a
    request exactly on the document [main_credentials], for a read or for a
    signed-in client. *)
Theorem admin_config_block_table (a : Access) (rest : list string) :
  blocks_allow a declared_blocks ("admin_config" :: rest) = true
  ↔ rest = ["main_credentials"] ∧
    (acc_method a ∈ reads ∨ signed_in_b a = true).
Proof.
  select_blocks. rewrite !orb_false_r. cbn [block_allows consume].
  destruct rest as [|x rest]; [cbn; split; [discriminate | by intros [? _]]|].
  destruct (String.eqb_spec x "main_credentials") as [->|Hne];
    [|cbn; split; [discriminate | intros [[= ?] _]; done]].
  cbn [existsb]. rewrite ?orb_false_r. unfold stmt_allows. cbn [methods cond].
  rewrite signed_in_eval. unfold always. cbn [allow].
  rewrite andb_true_r, andb_true_iff, orb_true_iff, andb_true_iff, !bool_decide_eq_true.
  split.
  - intros [-> [H|[_ H]]]; (split; [done|]); [by left | by right].
  - intros [[= ->] [H|H]]; (split; [done|]); [by left|].
    destruct (decide (acc_method a ∈ reads)) as [Hr|Hr]; [by left | right].
    split; [|done]. unfold reads, writes in *.
    destruct (acc_method a); set_solver.
Qed.

Lemma var_block a x allows rest :
  block_allows a (Match [Var x] allows []) rest =
  match rest with
  | [_] => existsb (stmt_allows a) allows
  | _ => false
  end.
Proof.
  cbn [block_allows consume].
  destruct rest as [|id [|y rest]]; cbn; rewrite ?orb_false_r; done.
Qed.

Lemma rec_block_allows a x p :
  block_allows a (Match [Rec x] [Allow reads always; Allow writes always] []) p = true.
Proof.
  cbn [block_allows]. rewrite consume_rec.
  apply (existsb_elem _ _ []); [apply suffixes_nil|].
  cbn [existsb bool_decide andb orb]. rewrite orb_false_r. apply stmts_read_write.
Qed.

Lemma var_block_cons a x allows inner id more :
  block_allows a (Match [Var x] allows inner) (id :: more)
  = bool_decide (more = []) && existsb (stmt_allows a) allows
    || blocks_allow a inner more.
Proof. unfold blocks_allow. cbn [block_allows consume existsb]. by rewrite orb_false_r. Qed.

(** X5: below [mentors] the blocks before the catch-all grant every request
    on a mentor document and on every path under it, at any depth; they
    grant nothing on the collection path itself. *)
Theorem mentors_block_table (a : Access) (rest : list string) :
  blocks_allow a declared_blocks ("mentors" :: rest) = true ↔ rest ≠ [].
Proof.
  select_blocks. rewrite ?orb_false_r.
  destruct rest as [|id more]; [by cbn|].
  rewrite var_block_cons. unfold blocks_allow. cbn [existsb].
  rewrite rec_block_allows, !orb_true_r. done.
Qed.

(** X6: for each collection of [open_collections] the blocks before the
    catch-all grant every request on its documents and none on deeper
    paths. *)
Theorem open_collections_table (a : Access) (c : string) (rest : list string) :
  c ∈ open_collections →
  (blocks_allow a declared_blocks (c :: rest) = true ↔ ∃ id, rest = [id]).
Proof.
  intros Hc. unfold open_collections in Hc.
  repeat (apply elem_of_cons in Hc as [->|Hc]);
    [ .. | by apply elem_of_nil in Hc ];
    select_blocks; rewrite ?orb_false_r, !var_block;
    (destruct rest as [|id [|y rest]];
      [ split; [discriminate | by intros [? [=]]]
      | split; [eauto|]; intros _; unfold stmt_allows; cbn [existsb methods cond];
        by destruct (acc_method a)
      | rewrite ?orb_false_r; split; [discriminate | by intros [? [=]]] ]).
Qed.

Lemma open_collections_table_witness :
  "events" ∈ open_collections ∧
  blocks_allow
    {| acc_method := Delete; acc_auth := None;
       acc_resource := stored ∅; acc_request := write ∅ |}
    declared_blocks ["events"; "e1"] = true.
Proof.
  assert (H : "events" ∈ open_collections)
    by (apply (bool_decide_unpack _); vm_compute; exact I).
  split; [exact H|].
  apply (open_collections_table _ "events" ["e1"] H). by exists "e1".
Defined.

Lemma blocks_other_roots a bs c rest :
  Forall (λ b, ∃ s, block_root b = Some s ∧ s ≠ c) bs →
  blocks_allow a bs (c :: rest) = false.
Proof.
  induction 1 as [|b bs (s & Hs & Hne) _ IH]; [done|].
  unfold blocks_allow in *. cbn [existsb]. rewrite IH, orb_false_r.
  destruct b as [[|[s'| |] pat] allows inner]; try discriminate.
  injection Hs as ->. by apply block_other_root.
Qed.

(** X7: the blocks before the catch-all grant nothing below a collection
    the file does not name. *)
Theorem undeclared_collection_denied (a : Access) (c : string) (rest : list string) :
  c ∉ declared_collections →
  blocks_allow a declared_blocks (c :: rest) = false.
Proof.
  intros Hc. apply blocks_other_roots.
  assert (Hroots : Forall (λ b, ∃ s, block_root b = Some s ∧ s ∈ declared_collections)
                     declared_blocks).
  { unfold declared_collections.
    apply Forall_forall. intros b Hb.
    unfold declared_blocks in Hb.
    repeat (apply elem_of_cons in Hb as [->|Hb]);
      [ .. | by apply elem_of_nil in Hb ];
      (eexists; split; [reflexivity|]);
      apply (bool_decide_unpack _); vm_compute; exact I. }
  eapply Forall_impl; [exact Hroots|].
  intros b (s & Hs & Hin). exists s. split; [done|]. by intros ->.
Qed.

Lemma undeclared_collection_denied_witness :
  ("invoices" ∉ declared_collections) ∧
  blocks_allow
    {| acc_method := Get; acc_auth := None;
       acc_resource := stored ∅; acc_request := write ∅ |}
    declared_blocks ["invoices"; "i1"] = false.
Proof.
  assert (H : "invoices" ∉ declared_collections).
  { intros Hin. apply (bool_decide_pack _) in Hin. vm_compute in Hin. exact Hin. }
  split; [exact H|]. exact (undeclared_collection_denied _ "invoices" ["i1"] H).
Defined.

Lemma rec_all_allows a x p :
  block_allows a (Match [Rec x] [Allow (reads ++ writes) always] []) p = true.
Proof.
  cbn [block_allows]. rewrite consume_rec.
  apply (existsb_elem _ _ []); [apply suffixes_nil|].
  cbn [existsb]. by rewrite stmt_all_methods.
Qed.

Lemma storage_default_denies a p : block_allows a storage_default p = false.
Proof.
  unfold storage_default. cbn [block_allows]. rewrite consume_rec.
  apply not_true_is_false. intros (rest & _ & H)%existsb_exists.
  unfold stmt_allows in H. cbn in H. by rewrite !andb_false_r in H.
Qed.

(** X8: [storage.rules] grants a request below [/b/{bucket}/o] exactly when
    the first segment of the object path is one of the four folders. *)
Theorem storage_rules_table (a : Access) (bucket : string) (p : list string) :
  block_allows a storage_rules ("b" :: bucket :: "o" :: p) = true
  ↔ ∃ folder rest, p = folder :: rest ∧ folder ∈ storage_folders.
Proof.
  unfold storage_rules. rewrite service_allows. unfold blocks_allow.
  cbn [existsb]. rewrite storage_default_denies, !orb_false_r.
  unfold storage_folder, storage_folders.
  destruct p as [|c rest].
  - rewrite !block_empty_path. split; [discriminate | by intros (? & ? & [=] & _)].
  - rewrite !block_lit, !rec_all_allows, !andb_true_r, !orb_true_iff.
    rewrite !String.eqb_eq. split.
    + intros H. exists c, rest. split; [done|].
      rewrite !elem_of_cons. tauto.
    + intros (f & r & [= <- <-] & Hf). rewrite !elem_of_cons in Hf.
      destruct Hf as [?|[?|[?|[?|[]%elem_of_nil]]]]; tauto.
Qed.

(** * Further properties of the two predicates *)

(** X9: the update rule grants exactly the writes whose field set contains
    [status] or [processedByAdminAt]: every update the onboarding predicate
    approves is already approved by [isAdminUpdate], and the stored document
    plays no part. *)
Theorem update_rule_is_admin_rule (r : Resource) (q : Request) :
  contactSubmissions_update r q = true
  ↔ "status" ∈ dom (data (resource q)) ∨
    "processedByAdminAt" ∈ dom (data (resource q)).
Proof.
  rewrite <- (stored_data r), <- (write_data q) at 1.
  rewrite update_rule_spec, admin_update_fields. split; [|tauto].
  intros [H|H]; [|done].
  apply onboarding_update_spec in H as [_ (_ & _ & Hs)]. by left.
Qed.

(** X10: [isAdminUpdate] fails to evaluate exactly when the write carries
    [temporaryUserId] or [temporaryPassword] and neither [status] nor
    [processedByAdminAt]; it is [false] exactly when none of the four fields
    is present. *)
Theorem isAdminUpdate_outcomes (incoming : gmap string value) :
  (isAdminUpdate (write incoming) = None
   ↔ ("status" ∉ dom incoming) ∧ ("processedByAdminAt" ∉ dom incoming) ∧
     ("temporaryUserId" ∈ dom incoming ∨ "temporaryPassword" ∈ dom incoming)) ∧
  (isAdminUpdate (write incoming) = Some false
   ↔ ("status" ∉ dom incoming) ∧ ("processedByAdminAt" ∉ dom incoming) ∧
     ("temporaryUserId" ∉ dom incoming) ∧ ("temporaryPassword" ∉ dom incoming)).
Proof.
  unfold isAdminUpdate, hasAny, keys, member, str, req. cbv zeta.
  cbn [write data resource fmap option_fmap option_map existsb].
  rewrite !not_elem_of_dom, !elem_of_dom.
  destruct (incoming !! "status") as [s|] eqn:Es;
    [rewrite (has_key_Some _ _ _ Es) | rewrite (has_key_None _ _ Es)];
  (destruct (incoming !! "processedByAdminAt") as [t|] eqn:Ep;
    [rewrite (has_key_Some _ _ _ Ep) | rewrite (has_key_None _ _ Ep)]);
  (destruct (incoming !! "temporaryUserId") as [u|] eqn:Eu;
    [rewrite (has_key_Some _ _ _ Eu) | rewrite (has_key_None _ _ Eu)]);
  (destruct (incoming !! "temporaryPassword") as [w|] eqn:Ew;
    [rewrite (has_key_Some _ _ _ Ew) | rewrite (has_key_None _ _ Ew)]);
  cbn; try destruct (bool_decide _); cbn;
  (split; split; try discriminate; try (intros (? & ? & ?); discriminate);
   try (intros (_ & _ & [[? ?]|[? ?]]); discriminate);
   try (intros (_ & _ & ? & ?); discriminate);
   try (intros _; repeat split; eauto)); try done.
Qed.

Lemma onboarding_existing_frame (e1 e2 : gmap string value) (q : Request) :
  e1 !! "status" = e2 !! "status" →
  e1 !! "email" = e2 !! "email" →
  isValidOnboardingUpdate (stored e1) q = isValidOnboardingUpdate (stored e2) q.
Proof.
  intros Hs He. unfold isValidOnboardingUpdate. cbv zeta.
  cbn [stored data member]. by rewrite Hs, He.
Qed.

(** X11: a document written by an approved onboarding update is itself
    accepted, and the onboarding predicate judges every later request
    against it as it did against the document before. *)
Theorem onboarding_update_stable (existing incoming : gmap string value) (q : Request) :
  isValidOnboardingUpdate (stored existing) (write incoming) = Some true →
  incoming !! "status" = Some (VStr "accepted") ∧
  isValidOnboardingUpdate (stored incoming) q
    = isValidOnboardingUpdate (stored existing) q.
Proof.
  intros H. apply onboarding_update_spec in H as [(Hst & _ & [He Hs] & _) _].
  split; [congruence|]. by apply onboarding_existing_frame.
Qed.

Lemma onboarding_update_stable_witness :
  isValidOnboardingUpdate (stored accepted_doc) (write update_profile) = Some true ∧
  isValidOnboardingUpdate (stored update_profile) (write update_profile)
    = isValidOnboardingUpdate (stored accepted_doc) (write update_profile).
Proof.
  assert (H : isValidOnboardingUpdate (stored accepted_doc) (write update_profile)
              = Some true) by (vm_compute; reflexivity).
  split; [exact H|].
  exact (proj2 (onboarding_update_stable accepted_doc update_profile
                  (write update_profile) H)).
Defined.

(** X12: the fourth alternative of [linkedinValid] never changes its
    value: a string that matches the second pattern matches the first. *)
Theorem linkedin_second_pattern_redundant (m : gmap string value) :
  ! hasAny (keys (doc m)) ["linkedin"] |||
    (doc m).["linkedin"] == str "" |||
    matches (doc m).["linkedin"] "https://.*linkedin.com/.*" |||
    matches (doc m).["linkedin"] "https://.*linkedin.com/in/.*"
  = ! hasAny (keys (doc m)) ["linkedin"] |||
    (doc m).["linkedin"] == str "" |||
    matches (doc m).["linkedin"] "https://.*linkedin.com/.*".
Proof.
  unfold hasAny, keys, member, matches, str, req.
  cbn [fmap option_fmap option_map existsb].
  fold linkedin_pattern_1 linkedin_pattern_2.
  destruct (m !! "linkedin") as [v|] eqn:E;
    [rewrite (has_key_Some _ _ _ E) | rewrite (has_key_None _ _ E); done].
  destruct v as [| | |s| | |]; cbn; try by destruct (bool_decide _).
  destruct (str_matches s linkedin_pattern_2) eqn:H2.
  - apply str_matches_pattern_2, linkedin_in_url_url, str_matches_pattern_1 in H2.
    rewrite H2. by destruct (bool_decide _).
  - by destruct (bool_decide _), (str_matches s linkedin_pattern_1).
Qed.

(** X13: the strings the two patterns accept, in words: [https://], any
    characters, [linkedin], any one character, [com/] (or [com/in/]), any
    characters, the characters standing for a dot not being line feeds. *)
Theorem linkedin_patterns_words (s : string) :
  (str_matches s "https://.*linkedin.com/.*" = true ↔ linkedin_url (chars s)) ∧
  (str_matches s "https://.*linkedin.com/in/.*" = true ↔ linkedin_in_url (chars s)).
Proof.
  split; [apply linkedin_pattern_1_lang | apply linkedin_pattern_2_lang].
Qed.

Lemma unchecked_field_facts k :
  k ∈ unchecked_fields →
  k ∈ allowedFields ∧ k ≠ "email" ∧ k ≠ "status" ∧ k ≠ "temporaryPassword" ∧
  k ≠ "firstName" ∧ k ≠ "lastName" ∧ k ≠ "linkedin" ∧ k ≠ "notificationPreferences".
Proof.
  intros Hk. unfold unchecked_fields in Hk.
  repeat (apply elem_of_cons in Hk as [->|Hk]); [ .. | by apply elem_of_nil in Hk ];
    (split; [unfold allowedFields; rewrite !elem_of_cons; tauto
            | repeat split; discriminate]).
Qed.

(** X14: the value of a field of [unchecked_fields] that the update already
    carries is never inspected: replacing it by any value leaves the verdict
    of the onboarding predicate unchanged.  [name] is one of them. *)
Theorem unchecked_field_value (existing incoming : gmap string value) (k : string) (v : value) :
  k ∈ unchecked_fields →
  k ∈ dom incoming →
  (isValidOnboardingUpdate (stored existing) (write (<[k:=v]> incoming)) = Some true
   ↔ isValidOnboardingUpdate (stored existing) (write incoming) = Some true).
Proof.
  intros (Hall & He & Hs & Hp & Hf & Hl & Hli & Hn)%unchecked_field_facts Hk.
  rewrite !onboarding_update_spec. unfold onboarding_contract, has_core_fields.
  assert (Hdom : dom (<[k:=v]> incoming) = dom incoming).
  { rewrite dom_insert_L. apply elem_of_dom in Hk. apply set_eq. intros x.
    rewrite elem_of_union, elem_of_singleton, !elem_of_dom. split; [|tauto].
    intros [->|?]; done. }
  rewrite Hdom. by rewrite !lookup_insert_ne.
Qed.

Lemma unchecked_field_value_witness :
  "name" ∈ unchecked_fields ∧ "name" ∈ dom update_profile ∧
  isValidOnboardingUpdate (stored accepted_doc)
    (write (<["name" := VInt 0]> update_profile)) = Some true.
Proof.
  assert (H1 : "name" ∈ unchecked_fields) by (apply (bool_decide_unpack _); vm_compute; exact I).
  assert (H2 : "name" ∈ dom update_profile).
  { apply elem_of_dom. vm_compute. eexists. reflexivity. }
  repeat apply conj; [exact H1 | exact H2 |].
  apply (proj2 (unchecked_field_value accepted_doc update_profile "name" (VInt 0) H1 H2)).
  vm_compute. reflexivity.
Defined.

(** * Avatar initials *)

Section InitialsFacts.
Context {U : Type} `{EqDecision U}.
Variable space : U.
Variable toUpperCase : list U → list U.
Import Initials.

Lemma split_word_starts (s : list U) :
  ∃ part parts,
    split space s = part :: parts ∧
    join (map first_unit (part :: parts)) = word_starts space true s ∧
    join (map first_unit parts) = word_starts space false s.
Proof.
  induction s as [|c s (part & parts & Hs & Ht & Hf)]; simpl.
  - exists [], []. done.
  - destruct (decide (c = space)) as [->|Hne].
    + exists [], (part :: parts). rewrite Hs. done.
    + rewrite Hs. exists (c :: part), parts. split; [done|].
      split; [|done]. unfold join in *. simpl. by rewrite Hf.
Qed.

(** X15: [getInitials] upper-cases the units of the name that start a word
    (not a space, and first or preceded by a space); before upper-casing the
    result holds no space and is no longer than the name. *)
Theorem getInitials_word_starts (name : list U) :
  getInitials space toUpperCase name = toUpperCase (word_starts space true name) ∧
  (space ∉ word_starts space true name) ∧
  (List.length (word_starts space true name) ≤ List.length name)%nat.
Proof.
  split; [|split].
  - unfold getInitials, initials.
    destruct (split_word_starts name) as (part & parts & -> & -> & _). done.
  - generalize true. induction name as [|c s IH]; intros b; simpl.
    + apply not_elem_of_nil.
    + destruct (decide (c = space)) as [->|Hne]; [apply IH|].
      destruct b; simpl; [apply not_elem_of_cons; split; [done | apply IH] | apply IH].
  - generalize true. induction name as [|c s IH]; intros b; simpl; [lia|].
    destruct (decide (c = space)); [specialize (IH true); lia|].
    destruct b; simpl; [specialize (IH false); lia | specialize (IH false); lia].
Qed.
End InitialsFacts.
